(** * Pre-commit checks: copyright headers and commit authors

    A shallow embedding of
      - [pre_commit_checks/check_copyright/check_copyright.py]
      - [pre_commit_checks/check_author.py]
    together with the properties of the two checkers.

    Python [str] values are modelled as lists of characters whose code
    point is below 256 ([ascii]); the character predicates below are the
    Python ones restricted to that range. *)

From Stdlib Require Import List Bool Ascii String ZArith Lia Arith.
From Stdlib Require Import DecimalString Permutation.
Import ListNotations.

Local Open Scope Z_scope.
Local Open Scope list_scope.

(** ** Python strings *)

Module PyStr.

Definition str := list ascii.

(** A string literal of the source. *)
Definition lit (s : string) : str := list_ascii_of_string s.

Definition code (c : ascii) : N := N_of_ascii c.

Definition TAB : ascii := ascii_of_N 9.
Definition LF : ascii := ascii_of_N 10.
Definition CR : ascii := ascii_of_N 13.
Definition DQUOTE : ascii := ascii_of_N 34.
Definition SQUOTE : ascii := ascii_of_N 39.
Definition BACKSLASH : ascii := ascii_of_N 92.

(** [str.isspace] on one character (also what [\s] matches and what
    [str.strip] removes): code points 9-13, 28-32, 0x85 and 0xA0. *)
Definition is_space (c : ascii) : bool :=
  let n := code c in
  ((9 <=? n) && (n <=? 13) || (28 <=? n) && (n <=? 32)
   || (n =? 133) || (n =? 160))%N.

(** [[0-9]] *)
Definition is_digit (c : ascii) : bool :=
  let n := code c in ((48 <=? n) && (n <=? 57))%N.

Definition digit_val (c : ascii) : Z := Z.of_N (code c) - 48.

Definition str_eqb (a b : str) : bool :=
  if list_eq_dec ascii_dec a b then true else false.

(** Truth value of a string: non-empty. *)
Definition truthy (s : str) : bool :=
  match s with [] => false | _ :: _ => true end.

Fixpoint lstrip (s : str) : str :=
  match s with
  | c :: s' => if is_space c then lstrip s' else s
  | [] => []
  end.

Definition rstrip (s : str) : str := rev (lstrip (rev s)).

(** [s.strip()] *)
Definition strip (s : str) : str := rstrip (lstrip s).

(** [s.startswith(p)] *)
Fixpoint startswith (s p : str) {struct p} : bool :=
  match p, s with
  | [], _ => true
  | a :: p', b :: s' => Ascii.eqb a b && startswith s' p'
  | _ :: _, [] => false
  end.

(** [s.endswith(p)] *)
Definition endswith (s p : str) : bool := startswith (rev s) (rev p).

(** Lowest index [i >= 0] with [s[i:]] starting with [sub], counted
    from [pos]; [-1] when there is none. *)
Fixpoint find_at (s sub : str) (pos : Z) : Z :=
  if startswith s sub then pos
  else match s with
       | [] => -1
       | _ :: s' => find_at s' sub (pos + 1)
       end.

(** [s.find(sub, start)]: a negative [start] counts from the end, a
    [start] beyond the end finds nothing. *)
Definition find (s sub : str) (start : Z) : Z :=
  let n := Z.of_nat (List.length s) in
  let st := if start <? 0 then Z.max 0 (start + n) else start in
  if n <? st then -1 else find_at (skipn (Z.to_nat st) s) sub st.

(** [sub] occurs somewhere in [s]. *)
Definition occurs (sub s : str) : Prop := exists a b, s = a ++ sub ++ b.

(** [s.split(sep)] for a one-character separator. *)
Fixpoint split_aux (sep : ascii) (cur : str) (s : str) : list str :=
  match s with
  | [] => [rev cur]
  | c :: s' => if Ascii.eqb c sep then rev cur :: split_aux sep [] s'
               else split_aux sep (c :: cur) s'
  end.

Definition split (s : str) (sep : ascii) : list str := split_aux sep [] s.

(** Digits of an [int] literal: decimal digits, single underscores
    allowed between two digits. *)
Fixpoint int_digits (acc : Z) (after_digit : bool) (s : str) : option Z :=
  match s with
  | [] => if after_digit then Some acc else None
  | c :: s' =>
      if is_digit c then int_digits (10 * acc + digit_val c) true s'
      else if Ascii.eqb c "_" then
             if after_digit then int_digits acc false s' else None
           else None
  end.

(** [int(s)]: surrounding whitespace is ignored, an optional sign, then
    the digits; [None] stands for [ValueError]. *)
Definition int (s : str) : option Z :=
  match strip s with
  | c :: t =>
      if Ascii.eqb c "-" then option_map Z.opp (int_digits 0 false t)
      else if Ascii.eqb c "+" then int_digits 0 false t
      else int_digits 0 false (c :: t)
  | [] => None
  end.

(** [str(n)] for an integer. *)
Definition str_of_int (n : Z) : str :=
  lit (NilZero.string_of_int (Z.to_int n)).

Definition hex_digit (n : N) : ascii :=
  ascii_of_N (if (n <? 10)%N then 48 + n else 87 + n)%N.

(** [str.isprintable] on one character. *)
Definition is_printable (c : ascii) : bool :=
  let n := code c in
  ((32 <=? n) && (n <? 127) || (161 <=? n) && negb (n =? 173))%N.

Definition repr_char (quote : ascii) (c : ascii) : str :=
  if Ascii.eqb c quote || Ascii.eqb c BACKSLASH then [BACKSLASH; c]
  else if Ascii.eqb c TAB then BACKSLASH :: lit "t"
  else if Ascii.eqb c LF then BACKSLASH :: lit "n"
  else if Ascii.eqb c CR then BACKSLASH :: lit "r"
  else if is_printable c then [c]
  else BACKSLASH :: lit "x"
       ++ [hex_digit (code c / 16); hex_digit (code c mod 16)].

Definition contains_char (c : ascii) (s : str) : bool :=
  existsb (Ascii.eqb c) s.

(** [repr(s)]: single quotes unless the string has a single quote and
    no double quote. *)
Definition repr (s : str) : str :=
  let quote : ascii :=
    if contains_char SQUOTE s && negb (contains_char DQUOTE s)
    then DQUOTE else SQUOTE in
  quote :: flat_map (repr_char quote) s ++ [quote].

(** [sep.join(l)] *)
Fixpoint join (sep : str) (l : list str) : str :=
  match l with
  | [] => []
  | [x] => x
  | x :: l' => x ++ sep ++ join sep l'
  end.

(** [str(l)] for a list of strings. *)
Definition repr_list (l : list str) : str :=
  lit "[" ++ join (lit ", ") (map repr l) ++ lit "]".

End PyStr.

(** ** Regular expressions

    The fragment of Python's [re] syntax the checkers use, with the
    backtracking semantics of the library: alternatives are tried in
    priority order (a greedy operator first takes, a lazy one first
    skips) and the first success wins. *)

Module Re.
Import PyStr.

Inductive regex : Type :=
| Chr (c : ascii)                 (* a literal character *)
| Lit (w : str)                   (* a literal word *)
| Cls (p : ascii -> bool)         (* a character class: [.], [\s], [[...]] *)
| Seq (r1 r2 : regex)             (* r1 r2 *)
| Opt (r : regex)                 (* r?   (greedy) *)
| Star (p : ascii -> bool)        (* cls*  (greedy) *)
| StarLazy (p : ascii -> bool)    (* cls*? (lazy) *)
| Rep (n : nat) (p : ascii -> bool) (* cls{n} *)
| Grp (r : regex).                (* (r), a capturing group *)

(** [.]: any character but a newline. *)
Definition dot (c : ascii) : bool := negb (Ascii.eqb c LF).

(** [[Cc]], [[cC]] *)
Definition one_of (l : str) (c : ascii) : bool := existsb (Ascii.eqb c) l.

(** [[0-9 \-]] *)
Definition digit_space_hyphen (c : ascii) : bool :=
  is_digit c || Ascii.eqb c " " || Ascii.eqb c "-".

Declare Scope re_scope.
Delimit Scope re_scope with re.
Bind Scope re_scope with regex.
Infix "+>" := Seq (at level 60, right associativity) : re_scope.

Section Matching.
Context {A : Type}.

(** [cls*]: take as many characters as possible, give back one at a
    time. *)
Fixpoint star (p : ascii -> bool) (s : str) (k : str -> option A)
  : option A :=
  match s with
  | c :: s' =>
      if p c then
        match star p s' k with
        | Some x => Some x
        | None => k s
        end
      else k s
  | [] => k s
  end.

(** [cls*?]: take as few characters as possible, one more at a time. *)
Fixpoint star_lazy (p : ascii -> bool) (s : str) (k : str -> option A)
  : option A :=
  match k s with
  | Some x => Some x
  | None =>
      match s with
      | c :: s' => if p c then star_lazy p s' k else None
      | [] => None
      end
  end.

(** [cls{n}] *)
Fixpoint rep (n : nat) (p : ascii -> bool) (s : str) (k : str -> option A)
  : option A :=
  match n with
  | O => k s
  | S n' =>
      match s with
      | c :: s' => if p c then rep n' p s' k else None
      | [] => None
      end
  end.

(** Match [r] at the start of [s] and hand the rest of the string to
    the continuation [k]; [None] when every alternative fails. *)
Fixpoint run (r : regex) (s : str) (k : str -> option A) : option A :=
  match r with
  | Chr c =>
      match s with
      | c' :: s' => if Ascii.eqb c c' then k s' else None
      | [] => None
      end
  | Lit w => if startswith s w then k (skipn (List.length w) s) else None
  | Cls p =>
      match s with
      | c' :: s' => if p c' then k s' else None
      | [] => None
      end
  | Seq r1 r2 => run r1 s (fun s' => run r2 s' k)
  | Opt r1 =>
      match run r1 s k with
      | Some x => Some x
      | None => k s
      end
  | Star p => star p s k
  | StarLazy p => star_lazy p s k
  | Rep n p => rep n p s k
  | Grp r1 => run r1 s k
  end.

End Matching.

(** A match object: where the match starts and the text it covers. *)
Record match_obj : Type := { m_start : nat; group0 : str }.

(** The text of [s] consumed when [rest] is what is left of it. *)
Definition consumed (s rest : str) : str :=
  firstn (List.length s - List.length rest) s.

(** [re.search]: the match at the leftmost position that has one. *)
Fixpoint search_from (r : regex) (pos : nat) (s : str) : option match_obj :=
  match run r s (fun rest => Some rest) with
  | Some rest => Some {| m_start := pos; group0 := consumed s rest |}
  | None =>
      match s with
      | [] => None
      | _ :: s' => search_from r (S pos) s'
      end
  end.

Definition search (r : regex) (s : str) : option match_obj :=
  search_from r 0 s.

(** Truth value of what [re.search] returns. *)
Definition found (m : option match_obj) : bool :=
  match m with Some _ => true | None => false end.

(** What an optional space [\ ?] matches. *)
Definition opt_space (s : str) : Prop := s = [] \/ s = [" "%char].

(** The language of a regular expression, without priorities. *)
Fixpoint matches (r : regex) (s : str) : Prop :=
  match r with
  | Chr c => s = [c]
  | Lit w => s = w
  | Cls p => exists c, s = [c] /\ p c = true
  | Seq r1 r2 => exists s1 s2, s = s1 ++ s2 /\ matches r1 s1 /\ matches r2 s2
  | Opt r1 => s = [] \/ matches r1 s
  | Star p => forallb p s = true
  | StarLazy p => forallb p s = true
  | Rep n p => List.length s = n /\ forallb p s = true
  | Grp r1 => matches r1 s
  end.

End Re.

(** ** Results of code that can raise *)

Module Exn.

Inductive error : Type := ValueError | IndexError.

Inductive result (A : Type) : Type :=
| Return (a : A)
| Raised (e : error).
Arguments Return {A} a.
Arguments Raised {A} e.

Definition bind {A B : Type} (m : result A) (f : A -> result B) : result B :=
  match m with
  | Return a => f a
  | Raised e => Raised e
  end.

Notation "x <- m ;; f" := (bind m (fun x => f))
  (at level 61, m at next level, right associativity).

(** A list comprehension whose body can raise. *)
Fixpoint map_result {A B : Type} (f : A -> result B) (l : list A)
  : result (list B) :=
  match l with
  | [] => Return []
  | a :: l' => b <- f a ;; bs <- map_result f l' ;; Return (b :: bs)
  end.

Definition of_option {A : Type} (e : error) (o : option A) : result A :=
  match o with Some a => Return a | None => Raised e end.

End Exn.

(** ** check_copyright.py *)

Module CheckCopyright.
Import PyStr Re Exn.
Local Open Scope re_scope.

Definition YEAR : Z := 2019.
Definition SUBSTRING_IS_NOT_FOUND : Z := -1.

(** *** get_leading_comments *)

(** The two locals of the loop. *)
Record scan_state : Type :=
  { comments : list str; multiline_comment : bool }.

(** How one turn of the loop ends. *)
Inductive flow : Type :=
| Continue (st : scan_state)
| Break (st : scan_state).

Definition append (st : scan_state) (line : str) : scan_state :=
  {| comments := comments st ++ [line];
     multiline_comment := multiline_comment st |}.

Definition set_multiline (st : scan_state) (b : bool) : scan_state :=
  {| comments := comments st; multiline_comment := b |}.

(** The body of [for line in stream]. *)
Definition loop_body (st : scan_state) (line : str) : flow :=
  let line := strip line in
  if negb (truthy line) then Continue st
  else if negb (multiline_comment st) then
    let found_pos := find line (lit "/*") 0 in
    if found_pos >=? 0 then
      let st :=
        if find line (lit "*/") found_pos =? SUBSTRING_IS_NOT_FOUND
        then set_multiline st true else st in
      Continue (append st line)
    else if find line (lit "//") 0 >=? 0 then
      Continue (append st line)
    else Break st
  else
    let st :=
      if find line (lit "*/") 0 >=? 0 then set_multiline st false else st in
    Continue (append st line).

Fixpoint loop (st : scan_state) (stream : list str) : flow :=
  match stream with
  | [] => Continue st
  | line :: stream' =>
      match loop_body st line with
      | Continue st' => loop st' stream'
      | Break st' => Break st'
      end
  end.

Definition final (f : flow) : scan_state :=
  match f with Continue st => st | Break st => st end.

Definition initial : scan_state :=
  {| comments := []; multiline_comment := false |}.

Definition get_leading_comments (stream : list str) : list str :=
  comments (final (loop initial stream)).

(** *** get_copyright_strings *)

(** [.*[Cc]opyright\s?.*([0-9]{4}).*] *)
Definition copyright_re : regex :=
  Star dot +> Cls (one_of (lit "Cc")) +> Lit (lit "opyright")
  +> Opt (Cls is_space) +> Star dot +> Grp (Rep 4 is_digit) +> Star dot.

Definition is_copyright_string (tested_string : str) : bool :=
  found (search copyright_re tested_string).

Definition get_copyright_strings (tested_strings : list str) : list str :=
  filter is_copyright_string tested_strings.

(** *** is_intel_copyright *)

(** [.*Copyright\s*?\([cC]\)\s*[0-9 \-]*\s*?Intel\s*?Corporation.*] *)
Definition intel_re : regex :=
  Star dot +> Lit (lit "Copyright") +> StarLazy is_space
  +> Chr "(" +> Cls (one_of (lit "cC")) +> Chr ")"
  +> Star is_space +> Star digit_space_hyphen +> StarLazy is_space
  +> Lit (lit "Intel") +> StarLazy is_space +> Lit (lit "Corporation")
  +> Star dot.

Definition is_intel_copyright (tested_string : str) : option match_obj :=
  search intel_re tested_string.

(** The test [if is_intel_copyright(s)]. *)
Definition is_intel (s : str) : bool := found (is_intel_copyright s).

(** *** get_copyright_year_or_range *)

(** [([0-9]{4}\ ?\-\ ?)?([0-9]{4})] *)
Definition year_re : regex :=
  Opt (Grp (Rep 4 is_digit +> Opt (Chr " ") +> Chr "-" +> Opt (Chr " ")))
  +> Grp (Rep 4 is_digit).

(** The dictionary returned: [{'year': y}] or [{'range': years}]. *)
Inductive year_or_range : Type :=
| Year (year : Z)
| Range (range : list Z).

Definition get_copyright_year_or_range (tested_string : str)
  : result (option year_or_range) :=
  match search year_re tested_string with
  | None => Return None
  | Some substring =>
      let years := split (group0 substring) "-" in
      years <- map_result (fun year => of_option ValueError (int year)) years ;;
      if (List.length years =? 2)%nat then Return (Some (Range years))
      else
        year0 <- of_option IndexError (nth_error years 0) ;;
        Return (Some (Year year0))
  end.

(** *** CopyrightChecker *)

Record CopyrightChecker : Type :=
  { repo_path : str;
    commit_id : str;
    report_path : str;
    details : list str;
    src_file : str }.

(** The fields as [__init__] sets them, for two paths already written
    the way [pathlib.Path] writes them; [CheckCopyrightRun.__init__]
    does the wrapping. *)
Definition init (repo_path commit_id report_path : str) : CopyrightChecker :=
  {| repo_path := repo_path; commit_id := commit_id;
     report_path := report_path; details := []; src_file := [] |}.

Definition append_details (self : CopyrightChecker) (string : str)
  : CopyrightChecker :=
  {| repo_path := repo_path self; commit_id := commit_id self;
     report_path := report_path self;
     details := details self ++ [src_file self ++ lit ":"; string];
     src_file := src_file self |}.

Definition msg_missing : str := TAB :: lit "Missing copyright.".

Definition msg_too_many (copyright_strings : list str) : str :=
  TAB :: lit "Too many copyrights: " ++ [LF; TAB]
  ++ repr_list copyright_strings.

Definition msg_format (intel_copyright : str) : str :=
  TAB :: lit "Incorrect the copyright range need " ++ str_of_int YEAR
  ++ lit " or [YEAR-]" ++ str_of_int YEAR ++ lit " ex: 2014-"
  ++ str_of_int YEAR ++ [LF; TAB] ++ intel_copyright.

Definition msg_year (intel_copyright : str) : str :=
  TAB :: lit "Incorrect the copyright year, [YEAR-]" ++ str_of_int YEAR
  ++ lit " is needed:" ++ [LF; TAB] ++ intel_copyright.

Definition msg_range (intel_copyright : str) : str :=
  TAB :: lit "Incorrect the copyright range [YEAR-]" ++ str_of_int YEAR
  ++ lit " is needed" ++ [LF; TAB] ++ intel_copyright.

(** The loop over the copyright strings: [None] when it returns from
    the function on a second Intel copyright, else the final value of
    [intel_copyright]. *)
Fixpoint find_intel (intel_copyright : str) (copyright_strings : list str)
  : option str :=
  match copyright_strings with
  | [] => Some intel_copyright
  | copyright_string :: rest =>
      if is_intel copyright_string then
        if truthy intel_copyright then None
        else find_intel copyright_string rest
      else find_intel intel_copyright rest
  end.

(** [from_year, to_year = l] *)
Definition unpack2 (l : list Z) : result (Z * Z) :=
  match l with
  | [a; b] => Return (a, b)
  | _ => Raised ValueError
  end.

Definition is_copyright_correct (self : CopyrightChecker)
  (tested_strings : list str) : result (bool * CopyrightChecker) :=
  let copyright_strings := get_copyright_strings tested_strings in
  match copyright_strings with
  | [] => Return (false, append_details self msg_missing)
  | _ :: _ =>
  match find_intel [] copyright_strings with
  | None =>
      Return (false, append_details self (msg_too_many copyright_strings))
  | Some intel_copyright =>
  if negb (truthy intel_copyright) then Return (true, self)
  else
    year_or_range <- get_copyright_year_or_range intel_copyright ;;
    match year_or_range with
    | None =>
        Return (false, append_details self (msg_format intel_copyright))
    | Some (Year year) =>
        if negb (year =? YEAR) then
          Return (false, append_details self (msg_year intel_copyright))
        else Return (true, self)
    | Some (Range range) =>
        p <- unpack2 range ;;
        let '(from_year, to_year) := p in
        if negb (to_year =? YEAR) || (to_year <=? from_year) then
          Return (false, append_details self (msg_range intel_copyright))
        else Return (true, self)
    end
  end
  end.

End CheckCopyright.

(** ** check_author.py *)

Module CheckAuthor.
Import PyStr.

Inductive level : Type := INFO | ERROR.

(** What the checker's logger receives, in order. *)
Definition log := list (level * str).

(** [x in l] for a list of strings. *)
Definition contains (l : list str) (x : str) : bool := existsb (str_eqb x) l.

Definition incorrect_author_names : list str := [lit "root"; lit "mediasdk"].

Definition check_author (author : str) : bool * log :=
  if negb (contains incorrect_author_names author) then
    (true, [(INFO, lit "Author name is correct")])
  else
    (false, [(ERROR, lit "Author name can not be "
                     ++ join (lit ", ") incorrect_author_names ++ lit ".")]).

Definition incorrect_email_endswith : str := lit "@localhost.localdomain".

Definition check_email (email : str) : bool * log :=
  if negb (endswith email incorrect_email_endswith) then
    (true, [(INFO, lit "Author email is correct")])
  else
    (false, [(ERROR, lit "Author email can not ends in "
                     ++ incorrect_email_endswith ++ lit ".")]).

(** [_get_author_info], for a checker of [revision] whose commit has
    the author [name] and [email]: what [repo.commit(revision).author]
    holds is taken as given. *)
Definition _get_author_info (revision name email : str)
  : (str * str) * log :=
  ((name, email),
   [(INFO, lit "Getting author information for " ++ revision
           ++ lit " revision.");
    (INFO, lit "Author name: " ++ name);
    (INFO, lit "Author email: " ++ email)]).

(** [Checker.check], for a checker of [revision] whose commit has the
    author [name] and [email]. *)
Definition check (revision name email : str) : bool * log :=
  let '((author, email), log0) := _get_author_info revision name email in
  let '(check_author_result, log1) := check_author author in
  let '(check_email_result, log2) := check_email email in
  let log3 :=
    if check_author_result && check_email_result
    then [(INFO, lit "All checks PASSED")]
    else [(ERROR, lit "Some checks FAILED")] in
  (check_author_result && check_email_result,
   log0 ++ log1 ++ log2 ++ log3).

End CheckAuthor.

(** ** The classifier as the specification words it *)

Module SpecWords.
Import PyStr.

Definition lower (c : ascii) : ascii :=
  let n := code c in
  if ((65 <=? n) && (n <=? 90))%N then ascii_of_N (n + 32) else c.

(** "A line is a copyright string if it case-insensitively contains
    the word copyright followed by a 4-digit year somewhere later in
    the line." *)
Definition copyright_string_ci (s : str) : Prop :=
  exists pre w mid d post,
    s = pre ++ w ++ mid ++ d ++ post /\
    map lower w = lit "copyright" /\
    List.length d = 4%nat /\ forallb is_digit d = true.

End SpecWords.

(** ** check_copyright.py: the run over the changed files

    What lies outside the repository is given by a [world]: what
    [git diff] prints or that git raises, how [pathlib.Path] writes a
    path, what opening and reading a file gives, whether [print]
    succeeds and the answer of [helper.update_json]. *)

Module CheckCopyrightRun.
Import PyStr Exn CheckCopyright.

(** only file extensions can be added *)
Definition FILES_TO_CHECK : list str := [lit ".h"; lit ".cpp"; lit ".c"].

(** The characters [str.splitlines] breaks lines at. *)
Definition is_linebreak (c : ascii) : bool :=
  let n := code c in
  ((10 <=? n) && (n <=? 13) || (28 <=? n) && (n <=? 30) || (n =? 133))%N.

(** [s.splitlines()]: a carriage return followed by a line feed is one
    break, and a break at the very end opens no further line. *)
Fixpoint splitlines_aux (cur : str) (s : str) : list str :=
  match s with
  | [] => match cur with [] => [] | _ :: _ => [rev cur] end
  | c :: s' =>
      if is_linebreak c then
        rev cur ::
        (if Ascii.eqb c CR then
           match s' with
           | c2 :: s'' =>
               if Ascii.eqb c2 LF then splitlines_aux [] s''
               else splitlines_aux [] s'
           | [] => splitlines_aux [] s'
           end
         else splitlines_aux [] s')
      else splitlines_aux (c :: cur) s'
  end.

Definition splitlines (s : str) : list str := splitlines_aux [] s.

(** [s.endswith(suffixes)] for a tuple of suffixes. *)
Definition endswith_any (s : str) (suffixes : list str) : bool :=
  existsb (endswith s) suffixes.

(** [str(t)] for a tuple of strings. *)
Definition repr_tuple (t : list str) : str :=
  lit "(" ++ join (lit ", ") (map repr t)
  ++ (if (List.length t =? 1)%nat then lit "," else []) ++ lit ")".

(** What stops a run short of its exit. *)
Inductive failure : Type :=
| GitError                 (* [git.Repo] or [git diff] raised *)
| OSError                  (* [open] raised *)
| ReadError                (* reading the open file raised, as a
                              [UnicodeDecodeError] does *)
| PrintError               (* [print] raised *)
| CheckError (e : error).  (* the check of a file raised *)

(** An open text file: the lines iterating over it yields, and whether
    it then comes to its end or raises. *)
Record file_desr : Type :=
  { lines : list str;
    raises_after : bool }.

Record world : Type :=
  { (** [git.Repo(repo_path).git.diff(rev, name_only=True,
        diff_filter='d')], [None] when git raises *)
    git_diff : str -> str -> option str;
    (** [str(pathlib.Path(name))] *)
    Path : str -> str;
    (** [open(repo_path / src_file)], [None] when it raises *)
    open_file : str -> str -> option file_desr;
    (** whether [print(text)] succeeds *)
    print_ok : str -> bool;
    (** [helper.update_json(check_name, status, output, report_path)] *)
    update_json : str -> bool -> str -> str -> bool }.

(** [CopyrightChecker(repo_path, commit_id, report_path)] *)
Definition __init__ (w : world) (repo_path commit_id report_path : str)
  : CopyrightChecker :=
  init (Path w repo_path) commit_id (Path w report_path).

Definition get_changed_files (w : world) (self : CopyrightChecker)
  : failure + list str :=
  match git_diff w (repo_path self) (commit_id self ++ lit "~1") with
  | None => inl GitError
  | Some files =>
      let files := splitlines files in
      inr (map (Path w)
             (filter (fun src_file => endswith_any src_file FILES_TO_CHECK)
                files))
  end.

(** [get_leading_comments(file_desr)] on an open file: the lines are
    read as the loop asks for them, so the loop meets a read error
    only if it has not stopped before. *)
Definition get_leading_comments_from (file : file_desr)
  : failure + list str :=
  match loop initial (lines file) with
  | Break st => inr (comments st)
  | Continue st =>
      if raises_after file then inl ReadError else inr (comments st)
  end.

Definition set_src_file (self : CopyrightChecker) (src_file : str)
  : CopyrightChecker :=
  {| repo_path := repo_path self; commit_id := commit_id self;
     report_path := report_path self; details := details self;
     src_file := src_file |}.

(** [self.details.append(line)] *)
Definition add_detail (self : CopyrightChecker) (line : str)
  : CopyrightChecker :=
  {| repo_path := repo_path self; commit_id := commit_id self;
     report_path := report_path self; details := details self ++ [line];
     src_file := src_file self |}.

(** [for self.src_file in files: ...]; a failure comes with the
    checker as it is when the exception is raised. *)
Fixpoint check_files (w : world) (self : CopyrightChecker)
  (files : list str) (has_problems : bool)
  : failure * CopyrightChecker + bool * CopyrightChecker :=
  match files with
  | [] => inr (has_problems, self)
  | file :: files' =>
      let self := set_src_file self file in
      match open_file w (repo_path self) (src_file self) with
      | None => inl (OSError, self)
      | Some file_desr =>
          match get_leading_comments_from file_desr with
          | inl e => inl (e, self)
          | inr comments =>
              match is_copyright_correct self comments with
              | Raised e => inl (CheckError e, self)
              | Return (correct, self) =>
                  check_files w self files' (has_problems || negb correct)
              end
          end
      end
  end.

(** How the process ends. *)
Inductive ending : Type :=
| Exit (code : Z)
| Uncaught (e : failure).

(** What a run does: the texts printed, the call made to
    [update_json] if any, how the process ends, and the checker at
    that point. *)
Record outcome : Type :=
  { printed : list str;
    report : option (str * bool * str * str);
    status : ending;
    checker : CopyrightChecker }.

(** The end of both branches: print the output, hand it to the report,
    exit with 2 after two more lines when the report cannot be written
    and with [code] otherwise. *)
Definition print_and_report (w : world) (self : CopyrightChecker)
  (passed : bool) (output : str) (code : Z) : outcome :=
  if negb (print_ok w output) then
    {| printed := []; report := None; status := Uncaught PrintError;
       checker := self |}
  else
    let call := Some (lit "check_copyright", passed, output,
                      report_path self) in
    if negb (update_json w (lit "check_copyright") passed output
               (report_path self))
    then
      let cannot := lit "Cannot update json file: " ++ report_path self in
      let no_report := lit "No report will be posted!" in
      if negb (print_ok w cannot) then
        {| printed := [output]; report := call;
           status := Uncaught PrintError; checker := self |}
      else if negb (print_ok w no_report) then
        {| printed := [output; cannot]; report := call;
           status := Uncaught PrintError; checker := self |}
      else
        {| printed := [output; cannot; no_report]; report := call;
           status := Exit 2;  (* Fail because of infrastructure *)
           checker := self |}
    else
      {| printed := [output]; report := call; status := Exit code;
         checker := self |}.

Definition check_copyright (w : world) (self : CopyrightChecker) : outcome :=
  let summary := [repeat "-"%char 50] in
  match get_changed_files w self with
  | inl e =>
      {| printed := []; report := None; status := Uncaught e;
         checker := self |}
  | inr files =>
  match check_files w self files false with
  | inl (e, self) =>
      {| printed := []; report := None; status := Uncaught e;
         checker := self |}
  | inr (has_problems, self) =>
      if has_problems then
        let summary := summary ++ [lit "Copyright check FAILED!"; []] in
        let self :=
          add_detail self
            (LF :: lit "Correct format: Copyright (c) [YEAR-]"
             ++ str_of_int YEAR
             ++ lit " Intel Corporation. All Rights Reserved.") in
        let output := join [LF] (summary ++ details self) in
        print_and_report w self false output 1
      else
        let summary := summary ++ [lit "Copyright check PASSED!"; []] in
        let self := add_detail self (lit "Checked following files:") in
        let self :=
          if negb (match files with [] => false | _ :: _ => true end) then
            add_detail
              (add_detail self (TAB :: lit "No files to check..."))
              (TAB :: lit "Check works only for files with extensions:"
               ++ repr_tuple FILES_TO_CHECK)
          else self in
        let self :=
          fold_left (fun self file_name => add_detail self (TAB :: file_name))
            files self in
        let output := join [LF] (summary ++ details self) in
        print_and_report w self true output 0
  end
  end.

(** [main], given the three arguments of the command line. *)
Definition main (w : world) (repo_path commit_id report_path : str)
  : outcome :=
  let copyright_checker := __init__ w repo_path commit_id report_path in
  check_copyright w copyright_checker.

(** The leading comments of a changed file, or what opening or
    reading it raises; whether the file passes, and the details a
    failing one adds. These are used to state what a run does. *)
Definition file_comments (w : world) (repo : str) (file : str)
  : failure + list str :=
  match open_file w repo file with
  | Some file_desr => get_leading_comments_from file_desr
  | None => inl OSError
  end.

Definition readable (w : world) (repo : str) (file : str) : bool :=
  match file_comments w repo file with
  | inr _ => true
  | inl _ => false
  end.

Definition file_passes (w : world) (repo : str) (file : str) : bool :=
  match file_comments w repo file with
  | inr comments =>
      match is_copyright_correct (init [] [] []) comments with
      | Return (correct, _) => correct
      | Raised _ => false
      end
  | inl _ => false
  end.

Definition file_details (w : world) (repo : str) (file : str) : list str :=
  match file_comments w repo file with
  | inr comments =>
      match is_copyright_correct (set_src_file (init [] [] []) file)
              comments with
      | Return (_, c) => details c
      | Raised _ => []
      end
  | inl _ => []
  end.

(** The checker after the loop has gone through [files], all of them
    read. *)
Definition after_files (w : world) (self : CopyrightChecker)
  (files : list str) : CopyrightChecker :=
  {| repo_path := repo_path self; commit_id := commit_id self;
     report_path := report_path self;
     details := details self
                ++ flat_map (file_details w (repo_path self)) files;
     src_file := last files (src_file self) |}.

End CheckCopyrightRun.

(** ** A sample world, to instantiate the properties of a run *)

Module Samples.
Import PyStr CheckCopyright CheckCopyrightRun.

(** Three changed paths, two of them sources. [src/a.cpp] has a
    correct header; [src/b.h] has none, cannot be opened in the
    repository [missing] and cannot be decoded in the repository
    [binary]. *)
Definition sample_world : world :=
  {| git_diff := fun repo _ =>
       if str_eqb repo (lit "nowhere") then None
       else Some (join [LF] [lit "src/a.cpp"; lit "README.md";
                             lit "src/b.h"]);
     Path := fun name => name;
     open_file := fun repo file =>
       if str_eqb file (lit "src/a.cpp") then
         Some {| lines := [lit "// Copyright (c) 2019 Intel Corporation";
                           lit "int a;"];
                 raises_after := false |}
       else if str_eqb file (lit "src/b.h") then
         if str_eqb repo (lit "missing") then None
         else if str_eqb repo (lit "binary") then
           Some {| lines := [lit "// Copyright 2001"];
                   raises_after := true |}
         else Some {| lines := [lit "#pragma once"];
                      raises_after := false |}
       else None;
     print_ok := fun _ => true;
     update_json := fun _ _ _ _ => true |}.

Definition sample_checker : CopyrightChecker :=
  __init__ sample_world (lit "repo") (lit "d593b26")
    (lit "pre_commit_checks.json").

Definition sample_checker_binary : CopyrightChecker :=
  __init__ sample_world (lit "binary") (lit "d593b26")
    (lit "pre_commit_checks.json").

End Samples.

(** ** Notions used to state properties *)

Module Notions.
Import PyStr.

(** The number a run of decimal digits denotes. *)
Definition decimal (d : str) : Z :=
  fold_left (fun acc c => 10 * acc + digit_val c) d 0.

Definition four_digits (d : str) : Prop :=
  List.length d = 4%nat /\ forallb is_digit d = true.

(** Four decimal digits in a row somewhere in the text. *)
Definition has_four_digits (s : str) : Prop :=
  exists pre d post, s = pre ++ d ++ post /\ four_digits d.

Definition no_digit (s : str) : bool :=
  forallb (fun c => negb (is_digit c)) s.

(** What the check answers for a block, read off a run with a fresh
    checker. *)
Definition verdict (tested_strings : list str) : bool :=
  match CheckCopyright.is_copyright_correct
          (CheckCopyright.init [] [] []) tested_strings with
  | Exn.Return (ok, _) => ok
  | Exn.Raised _ => false
  end.

(** The message the check records for a block it rejects. *)
Definition complaint (tested_strings : list str) : str :=
  match CheckCopyright.is_copyright_correct
          (CheckCopyright.init [] [] []) tested_strings with
  | Exn.Return (_, checker) => nth 1 (CheckCopyright.details checker) []
  | Exn.Raised _ => []
  end.

End Notions.

(** * Properties *)

Import PyStr Re Exn.

(** ** Strings *)

Lemma startswith_app (p rest : str) : startswith (p ++ rest) p = true.
Proof.
  induction p as [|a p IH]; simpl; [reflexivity|].
  now rewrite Ascii.eqb_refl, IH.
Qed.

Lemma startswith_split (s p : str) :
  startswith s p = true -> s = p ++ skipn (List.length p) s.
Proof.
  revert s; induction p as [|a p IH]; intros s H; simpl in *; [reflexivity|].
  destruct s as [|b s]; [discriminate|].
  apply andb_true_iff in H as [Hab Hs].
  apply Ascii.eqb_eq in Hab; subst b.
  simpl. f_equal. now apply IH.
Qed.

Lemma startswith_iff (s p : str) :
  startswith s p = true <-> exists rest, s = p ++ rest.
Proof.
  split.
  - intros H. eexists. now apply startswith_split.
  - intros [rest ->]. apply startswith_app.
Qed.

Lemma endswith_iff (s p : str) :
  endswith s p = true <-> exists pre, s = pre ++ p.
Proof.
  unfold endswith. rewrite startswith_iff. split.
  - intros [rest H]. exists (rev rest).
    rewrite <- (rev_involutive s), H, rev_app_distr, rev_involutive.
    reflexivity.
  - intros [pre ->]. exists (rev pre). apply rev_app_distr.
Qed.

Lemma str_eqb_eq (a b : str) : str_eqb a b = true <-> a = b.
Proof.
  unfold str_eqb. destruct (list_eq_dec ascii_dec a b); split;
    congruence.
Qed.

(** ** The author check *)

(** C7: the author check passes exactly when the name is neither
    "root" nor "mediasdk" and the email does not end with
    "@localhost.localdomain"; a forbidden email fails it whatever the
    name, a forbidden name whatever the email. *)
Theorem check_passes_iff (revision author email : str) :
  (fst (CheckAuthor.check revision author email) = true <->
     author <> lit "root" /\ author <> lit "mediasdk" /\
     ~ (exists user, email = user ++ lit "@localhost.localdomain"))
  /\ ((exists user, email = user ++ lit "@localhost.localdomain") ->
      fst (CheckAuthor.check revision author email) = false)
  /\ (author = lit "root" \/ author = lit "mediasdk" ->
      fst (CheckAuthor.check revision author email) = false).
Proof.
  assert (Hfst : fst (CheckAuthor.check revision author email)
                 = negb (CheckAuthor.contains
                           CheckAuthor.incorrect_author_names author)
                   && negb (endswith email
                              CheckAuthor.incorrect_email_endswith)).
  { unfold CheckAuthor.check, CheckAuthor._get_author_info,
      CheckAuthor.check_author, CheckAuthor.check_email.
    destruct (negb (CheckAuthor.contains _ author));
      destruct (negb (endswith email _)); reflexivity. }
  assert (Hname : CheckAuthor.contains
                    CheckAuthor.incorrect_author_names author = true
                  <-> author = lit "root" \/ author = lit "mediasdk").
  { unfold CheckAuthor.contains, CheckAuthor.incorrect_author_names.
    simpl existsb. rewrite orb_false_r, orb_true_iff, !str_eqb_eq.
    reflexivity. }
  assert (Hmail : endswith email CheckAuthor.incorrect_email_endswith = true
                  <-> exists user,
                      email = user ++ lit "@localhost.localdomain").
  { apply endswith_iff. }
  rewrite Hfst. split; [split|split].
  - intros H. apply andb_true_iff in H as [H1 H2].
    apply negb_true_iff in H1, H2.
    repeat split; intros Hbad.
    + assert (CheckAuthor.contains CheckAuthor.incorrect_author_names
                author = true) by (apply Hname; now left). congruence.
    + assert (CheckAuthor.contains CheckAuthor.incorrect_author_names
                author = true) by (apply Hname; now right). congruence.
    + apply Hmail in Hbad. congruence.
  - intros (Hr & Hm & He). apply andb_true_iff. split; apply negb_true_iff.
    + apply not_true_is_false. intros E. apply Hname in E. tauto.
    + apply not_true_is_false. intros E. apply Hmail in E. tauto.
  - intros He. apply Hmail in He. rewrite He. apply andb_false_r.
  - intros Ha. apply Hname in Ha. rewrite Ha. reflexivity.
Qed.

Lemma check_passes_iff_witness :
  (exists user,
     lit "dev@localhost.localdomain"
     = user ++ lit "@localhost.localdomain")
  /\ fst (CheckAuthor.check (lit "HEAD") (lit "alice")
            (lit "dev@localhost.localdomain")) = false.
Proof.
  assert (H : exists user,
             lit "dev@localhost.localdomain"
             = user ++ lit "@localhost.localdomain")
    by (exists (lit "dev"); reflexivity).
  split; [exact H|].
  exact (proj1 (proj2 (check_passes_iff (lit "HEAD") (lit "alice")
                         (lit "dev@localhost.localdomain"))) H).
Defined.

(** ** The matcher against the language of an expression *)

Section MatcherFacts.
Context {A : Type}.
Implicit Types (k : str -> option A) (p : ascii -> bool).

Lemma star_keeps k p s : k s <> None -> star p s k <> None.
Proof.
  intros Hk. destruct s as [|c s]; simpl; [exact Hk|].
  destruct (p c); [|exact Hk].
  destruct (star p s k); [discriminate|exact Hk].
Qed.

Lemma star_complete k p s1 s2 :
  forallb p s1 = true -> k s2 <> None -> star p (s1 ++ s2) k <> None.
Proof.
  intros Hp Hk. induction s1 as [|c s1 IH]; simpl in *.
  - now apply star_keeps.
  - apply andb_true_iff in Hp as [Hc Hp]. rewrite Hc.
    destruct (star p (s1 ++ s2) k) eqn:E; [discriminate|].
    now elim (IH Hp).
Qed.

Lemma star_sound k p s x :
  star p s k = Some x ->
  exists s1 s2, s = s1 ++ s2 /\ forallb p s1 = true /\ k s2 = Some x.
Proof.
  induction s as [|c s IH]; simpl; intros H.
  - exists [], []. auto.
  - destruct (p c) eqn:Hc.
    + destruct (star p s k) as [y|] eqn:E.
      * injection H as ->. destruct (IH eq_refl) as (s1 & s2 & -> & Hp & Hk).
        exists (c :: s1), s2. simpl. rewrite Hc. auto.
      * exists [], (c :: s). auto.
    + exists [], (c :: s). auto.
Qed.

Lemma star_lazy_complete k p s1 s2 :
  forallb p s1 = true -> k s2 <> None -> star_lazy p (s1 ++ s2) k <> None.
Proof.
  intros Hp Hk. induction s1 as [|c s1 IH]; simpl in *.
  - destruct s2 as [|c s2]; simpl.
    + destruct (k []); [discriminate|now elim Hk].
    + destruct (k (c :: s2)); [discriminate|now elim Hk].
  - apply andb_true_iff in Hp as [Hc Hp]. rewrite Hc.
    destruct (k (c :: s1 ++ s2)); [discriminate|]. auto.
Qed.

Lemma star_lazy_sound k p s x :
  star_lazy p s k = Some x ->
  exists s1 s2, s = s1 ++ s2 /\ forallb p s1 = true /\ k s2 = Some x.
Proof.
  induction s as [|c s IH]; simpl; intros H.
  - destruct (k []) eqn:E; [|discriminate].
    injection H as ->. exists [], []. auto.
  - destruct (k (c :: s)) eqn:E.
    + injection H as ->. exists [], (c :: s). auto.
    + destruct (p c) eqn:Hc; [|discriminate].
      destruct (IH H) as (s1 & s2 & -> & Hp & Hk).
      exists (c :: s1), s2. simpl. rewrite Hc. auto.
Qed.

Lemma rep_complete k p s1 s2 :
  forallb p s1 = true -> k s2 <> None ->
  rep (List.length s1) p (s1 ++ s2) k <> None.
Proof.
  intros Hp Hk. induction s1 as [|c s1 IH]; simpl in *; [exact Hk|].
  apply andb_true_iff in Hp as [Hc Hp]. rewrite Hc. auto.
Qed.

Lemma rep_sound k p n s x :
  rep n p s k = Some x ->
  exists s1 s2, s = s1 ++ s2 /\ List.length s1 = n /\
                forallb p s1 = true /\ k s2 = Some x.
Proof.
  revert s. induction n as [|n IH]; simpl; intros s H.
  - exists [], s. auto.
  - destruct s as [|c s]; [discriminate|].
    destruct (p c) eqn:Hc; [|discriminate].
    destruct (IH _ H) as (s1 & s2 & -> & Hn & Hp & Hk).
    exists (c :: s1), s2. simpl. rewrite Hc, Hn. auto.
Qed.

(** Whatever the matcher returns comes from a word of the language
    followed by a text the continuation accepts. *)
Lemma run_sound r : forall k s x,
  run r s k = Some x ->
  exists s1 s2, s = s1 ++ s2 /\ matches r s1 /\ k s2 = Some x.
Proof.
  induction r as [c|w|p|r1 IH1 r2 IH2|r1 IH1|p|p|n p|r1 IH1];
    intros k s x H; simpl in H.
  - destruct s as [|c' s]; [discriminate|].
    destruct (Ascii.eqb c c') eqn:E; [|discriminate].
    apply Ascii.eqb_eq in E; subst c'. exists [c], s. simpl. auto.
  - destruct (startswith s w) eqn:E; [|discriminate].
    exists w, (skipn (List.length w) s). simpl.
    split; [now apply startswith_split|auto].
  - destruct s as [|c' s]; [discriminate|].
    destruct (p c') eqn:E; [|discriminate].
    exists [c'], s. simpl. eauto.
  - apply IH1 in H as (s1 & t & -> & H1 & H).
    apply IH2 in H as (s2 & s3 & -> & H2 & H).
    exists (s1 ++ s2), s3. rewrite app_assoc. simpl.
    split; [reflexivity|]. split; [|exact H]. exists s1, s2. auto.
  - destruct (run r1 s k) as [y|] eqn:E.
    + injection H as ->. apply IH1 in E as (s1 & s2 & -> & H1 & H).
      exists s1, s2. simpl. auto.
    + exists [], s. simpl. auto.
  - apply star_sound in H. exact H.
  - apply star_lazy_sound in H. exact H.
  - apply rep_sound in H as (s1 & s2 & -> & Hn & Hp & Hk).
    exists s1, s2. simpl. auto.
  - apply IH1 in H. exact H.
Qed.

(** A word of the language followed by a text the continuation accepts
    makes the matcher succeed. *)
Lemma run_complete r : forall k s1 s2,
  matches r s1 -> k s2 <> None -> run r (s1 ++ s2) k <> None.
Proof.
  induction r as [c|w|p|r1 IH1 r2 IH2|r1 IH1|p|p|n p|r1 IH1];
    intros k s1 s2 Hm Hk; simpl in Hm |- *.
  - subst s1. simpl. now rewrite Ascii.eqb_refl.
  - subst s1. rewrite startswith_app, skipn_app, skipn_all, Nat.sub_diag.
    exact Hk.
  - destruct Hm as (c & -> & Hc). simpl. now rewrite Hc.
  - destruct Hm as (a & b & -> & Ha & Hb). rewrite <- app_assoc.
    apply IH1; [exact Ha|]. now apply IH2.
  - destruct Hm as [->|Hm].
    + simpl. destruct (run r1 s2 k); [discriminate|exact Hk].
    + specialize (IH1 k s1 s2 Hm Hk).
      destruct (run r1 (s1 ++ s2) k); [discriminate|contradiction].
  - now apply star_complete.
  - now apply star_lazy_complete.
  - destruct Hm as [<- Hp]. now apply rep_complete.
  - now apply IH1.
Qed.

End MatcherFacts.

Lemma consumed_app (s s1 rest : str) :
  s = s1 ++ rest -> consumed s rest = s1.
Proof.
  intros ->. unfold consumed. rewrite length_app, Nat.add_sub.
  rewrite firstn_app, Nat.sub_diag, firstn_all. simpl. apply app_nil_r.
Qed.

Lemma run_here r s rest :
  run r s (fun rest => Some rest) = Some rest ->
  exists s1, s = s1 ++ rest /\ matches r s1.
Proof.
  intros H. apply run_sound in H as (s1 & s2 & Hs & Hm & Hk).
  injection Hk as ->. eauto.
Qed.

(** A successful search returns a word of the language and where it
    lies in the text. *)
Lemma search_from_sound r : forall s pos m,
  search_from r pos s = Some m ->
  exists pre post,
    s = pre ++ group0 m ++ post /\ matches r (group0 m) /\
    m_start m = (pos + List.length pre)%nat.
Proof.
  assert (Hhere : forall s pos rest,
             run r s (fun rest => Some rest) = Some rest ->
             let m := {| m_start := pos; group0 := consumed s rest |} in
             exists pre post,
               s = pre ++ group0 m ++ post /\ matches r (group0 m) /\
               m_start m = (pos + List.length pre)%nat).
  { intros s pos rest E. apply run_here in E as (s1 & Hs & Hm).
    exists [], rest. simpl. rewrite (consumed_app _ _ _ Hs).
    repeat split; [exact Hs|exact Hm|lia]. }
  induction s as [|c s IH]; intros pos m H; simpl in H.
  - destruct (run r [] _) as [rest|] eqn:E; [|discriminate].
    injection H as <-. now apply Hhere.
  - destruct (run r (c :: s) _) as [rest|] eqn:E.
    + injection H as <-. now apply Hhere.
    + apply IH in H as (pre & post & -> & Hm & Hst).
      exists (c :: pre), post. simpl. split; [reflexivity|].
      split; [exact Hm|]. rewrite Hst. lia.
Qed.

Lemma search_from_complete r pre mid post : forall pos,
  matches r mid -> search_from r pos (pre ++ mid ++ post) <> None.
Proof.
  intros pos Hm. revert pos.
  assert (Hhere : forall s,
             run r (mid ++ s) (fun rest => Some rest) <> None).
  { intros s. apply run_complete; [exact Hm|discriminate]. }
  induction pre as [|c pre IH]; intros pos.
  - simpl. specialize (Hhere post).
    destruct mid, post; simpl in *;
      destruct (run r _ _); try discriminate; congruence.
  - simpl. destruct (run r (c :: pre ++ mid ++ post) _); [discriminate|].
    apply IH.
Qed.

(** [re.search] finds a match exactly when some part of the text is in
    the language. *)
Lemma search_found_iff r s :
  found (search r s) = true <->
  exists pre mid post, s = pre ++ mid ++ post /\ matches r mid.
Proof.
  unfold search. split.
  - destruct (search_from r 0 s) as [m|] eqn:E; [|discriminate].
    intros _. apply search_from_sound in E as (pre & post & Hs & Hm & _).
    eauto.
  - intros (pre & mid & post & -> & Hm).
    pose proof (search_from_complete r pre mid post 0%nat Hm).
    destruct (search_from r 0 _); [reflexivity|contradiction].
Qed.

(** ** The copyright line classifier *)

Import CheckCopyright.

Lemma one_of_Cc (c : ascii) :
  one_of (lit "Cc") c = true <-> c = "C"%char \/ c = "c"%char.
Proof.
  unfold one_of. simpl. rewrite orb_false_r, orb_true_iff, !Ascii.eqb_eq.
  reflexivity.
Qed.

Lemma one_of_cC (c : ascii) :
  one_of (lit "cC") c = true <-> c = "c"%char \/ c = "C"%char.
Proof.
  unfold one_of. simpl. rewrite orb_false_r, orb_true_iff, !Ascii.eqb_eq.
  reflexivity.
Qed.

(** The language of the pattern of [get_copyright_strings]. *)
Lemma matches_copyright_re (s : str) :
  matches copyright_re s <->
  exists a first w gap d post,
    s = a ++ first :: lit "opyright" ++ w ++ gap ++ d ++ post /\
    forallb dot a = true /\
    (first = "C"%char \/ first = "c"%char) /\
    (w = [] \/ exists c, w = [c] /\ is_space c = true) /\
    forallb dot gap = true /\
    (List.length d = 4%nat /\ forallb is_digit d = true) /\
    forallb dot post = true.
Proof.
  unfold copyright_re. cbn [matches]. split.
  - intros (a & s1 & -> & Ha & s2 & s3 & -> & (first & -> & Hf) & s4 & s5
            & -> & -> & w & s6 & -> & Hw & gap & s7 & -> & Hgap & d & post
            & -> & Hd & Hpost).
    exists a, first, w, gap, d, post. apply one_of_Cc in Hf.
    repeat split; try tauto.
  - intros (a & first & w & gap & d & post & -> & Ha & Hf & Hw & Hgap & Hd
            & Hpost).
    apply one_of_Cc in Hf.
    exists a, (first :: lit "opyright" ++ w ++ gap ++ d ++ post).
    split; [reflexivity|]. split; [exact Ha|].
    exists [first], (lit "opyright" ++ w ++ gap ++ d ++ post).
    split; [reflexivity|]. split; [eauto|].
    exists (lit "opyright"), (w ++ gap ++ d ++ post).
    split; [reflexivity|]. split; [reflexivity|].
    exists w, (gap ++ d ++ post). split; [reflexivity|]. split; [exact Hw|].
    exists gap, (d ++ post). split; [reflexivity|]. split; [exact Hgap|].
    exists d, post. auto.
Qed.

(** What [re.search] with that pattern accepts: "Copyright" or
    "copyright", at most one whitespace character, characters other
    than a newline, four digits. *)
Lemma is_copyright_string_iff (s : str) :
  is_copyright_string s = true <->
  exists pre first w gap d post,
    s = pre ++ first :: lit "opyright" ++ w ++ gap ++ d ++ post /\
    (first = "C"%char \/ first = "c"%char) /\
    (w = [] \/ exists c, w = [c] /\ is_space c = true) /\
    forallb dot gap = true /\
    List.length d = 4%nat /\ forallb is_digit d = true.
Proof.
  unfold is_copyright_string. rewrite search_found_iff. split.
  - intros (pre & mid & post & -> & Hm).
    apply matches_copyright_re in Hm
      as (a & first & w & gap & d & post' & -> & _ & Hf & Hw & Hgap
          & [Hd1 Hd2] & _).
    exists (pre ++ a), first, w, gap, d, (post' ++ post).
    repeat split; try assumption.
    rewrite <- !app_assoc. simpl. rewrite <- !app_assoc. reflexivity.
  - intros (pre & first & w & gap & d & post & -> & Hf & Hw & Hgap & Hd1
            & Hd2).
    exists pre, (first :: lit "opyright" ++ w ++ gap ++ d), post.
    split.
    + simpl. rewrite <- !app_assoc. reflexivity.
    + apply matches_copyright_re. exists [], first, w, gap, d, [].
      rewrite app_nil_r. repeat split; assumption.
Qed.

(** The language of the pattern of [is_intel_copyright]. *)
Lemma matches_intel_re (s : str) :
  matches intel_re s <->
  exists a w1 p w2 d w3 w4 post,
    s = a ++ lit "Copyright" ++ w1 ++ "("%char :: p :: ")"%char
          :: w2 ++ d ++ w3 ++ lit "Intel" ++ w4 ++ lit "Corporation"
          ++ post /\
    forallb dot a = true /\
    forallb is_space w1 = true /\
    (p = "c"%char \/ p = "C"%char) /\
    forallb is_space w2 = true /\
    forallb digit_space_hyphen d = true /\
    forallb is_space w3 = true /\
    forallb is_space w4 = true /\
    forallb dot post = true.
Proof.
  unfold intel_re. cbn [matches]. split.
  - intros (a & ? & -> & Ha & ? & ? & -> & -> & w1 & ? & -> & H1 & ? & ?
            & -> & -> & ? & ? & -> & (p & -> & Hp) & ? & ? & -> & -> & w2
            & ? & -> & H2 & d & ? & -> & Hd & w3 & ? & -> & H3 & ? & ? & ->
            & -> & w4 & ? & -> & H4 & ? & post & -> & -> & Hpost).
    exists a, w1, p, w2, d, w3, w4, post. apply one_of_cC in Hp.
    repeat split; assumption.
  - intros (a & w1 & p & w2 & d & w3 & w4 & post & -> & Ha & H1 & Hp & H2
            & Hd & H3 & H4 & Hpost).
    apply one_of_cC in Hp.
    do 2 eexists; split; [reflexivity|]; split; [exact Ha|].
    do 2 eexists; split; [reflexivity|]; split; [reflexivity|].
    do 2 eexists; split; [reflexivity|]; split; [exact H1|].
    exists ["("%char]; eexists; split; [reflexivity|]; split; [reflexivity|].
    exists [p]; eexists; split; [reflexivity|]; split; [eauto|].
    exists [")"%char]; eexists; split; [reflexivity|];
      split; [reflexivity|].
    do 2 eexists; split; [reflexivity|]; split; [exact H2|].
    do 2 eexists; split; [reflexivity|]; split; [exact Hd|].
    do 2 eexists; split; [reflexivity|]; split; [exact H3|].
    do 2 eexists; split; [reflexivity|]; split; [reflexivity|].
    do 2 eexists; split; [reflexivity|]; split; [exact H4|].
    do 2 eexists; split; [reflexivity|]; split; [reflexivity|].
    exact Hpost.
Qed.

Lemma forallb_dot_no_newline (s : str) :
  contains_char LF s = false -> forallb dot s = true.
Proof.
  unfold contains_char, dot.
  induction s as [|c s IH]; cbn [existsb forallb]; [reflexivity|].
  intros H. apply orb_false_iff in H as [Hc Hs].
  rewrite Ascii.eqb_sym, Hc. now apply IH.
Qed.

Lemma contains_char_app (c : ascii) (a b : str) :
  contains_char c (a ++ b) = contains_char c a || contains_char c b.
Proof. apply existsb_app. Qed.

(** C4 (as stated, refuted): "COPYRIGHT 2019" has the word in capitals
    followed by a year, and is not classified as a copyright string. *)
Lemma copyright_string_ci_refuted :
  ~ (is_copyright_string (lit "COPYRIGHT 2019") = true <->
     SpecWords.copyright_string_ci (lit "COPYRIGHT 2019")).
Proof.
  intros [_ H].
  assert (Hs : SpecWords.copyright_string_ci (lit "COPYRIGHT 2019")).
  { exists [], (lit "COPYRIGHT"), (lit " "), (lit "2019"), [].
    repeat split; reflexivity. }
  apply H in Hs. vm_compute in Hs. discriminate.
Qed.

(** C4 (amended): a line, a text without a newline, is classified as a
    copyright string exactly when it contains "Copyright" or
    "copyright" (only the first letter in either case) followed later
    in the line by four decimal digits. *)
Theorem is_copyright_string_line (s : str) :
  contains_char LF s = false ->
  (is_copyright_string s = true <->
   exists pre first mid d post,
     s = pre ++ first :: lit "opyright" ++ mid ++ d ++ post /\
     (first = "C"%char \/ first = "c"%char) /\
     List.length d = 4%nat /\ forallb is_digit d = true).
Proof.
  intros Hline. rewrite is_copyright_string_iff. split.
  - intros (pre & first & w & gap & d & post & -> & Hf & _ & _ & Hd1 & Hd2).
    exists pre, first, (w ++ gap), d, post.
    rewrite <- !app_assoc. auto.
  - intros (pre & first & mid & d & post & -> & Hf & Hd1 & Hd2).
    exists pre, first, [], mid, d, post.
    repeat split; try assumption; [now left|].
    apply forallb_dot_no_newline.
    rewrite contains_char_app in Hline.
    apply orb_false_iff in Hline as [_ Hline].
    change (first :: lit "opyright" ++ mid ++ d ++ post)
      with ((first :: lit "opyright") ++ mid ++ d ++ post) in Hline.
    rewrite !contains_char_app in Hline.
    apply orb_false_iff in Hline as [_ Hline].
    now apply orb_false_iff in Hline as [Hline _].
Qed.

Lemma is_copyright_string_line_witness :
  contains_char LF (lit "// copyright 2019 Someone") = false /\
  (is_copyright_string (lit "// copyright 2019 Someone") = true <->
   exists pre first mid d post,
     lit "// copyright 2019 Someone"
     = pre ++ first :: lit "opyright" ++ mid ++ d ++ post /\
     (first = "C"%char \/ first = "c"%char) /\
     List.length d = 4%nat /\ forallb is_digit d = true).
Proof.
  split; [reflexivity|].
  apply (is_copyright_string_line (lit "// copyright 2019 Someone")).
  reflexivity.
Defined.

(** C3 (as stated, refuted): without "(c)" the notice
    "Copyright 2019 Intel Corporation" is not organizational. *)
Lemma intel_copyright_needs_c :
  found (is_intel_copyright (lit "Copyright 2019 Intel Corporation")) = false.
Proof. vm_compute. reflexivity. Qed.

(** C3 (amended): a string is classified as organizational exactly
    when it contains "Copyright" (exact case), optional whitespace,
    then "(c)" or "(C)", which is required, then optional whitespace,
    digits, spaces and hyphens, then "Intel", optional whitespace and
    "Corporation"; so "Copyright (c) 2019 Intel Corporation" is
    organizational and "Copyright 2019 Intel Corporation" is not. *)
Theorem is_intel_copyright_iff :
  (forall s : str,
     found (is_intel_copyright s) = true <->
     exists pre w1 p w2 d w3 w4 post,
       s = pre ++ lit "Copyright" ++ w1 ++ "("%char :: p :: ")"%char
             :: w2 ++ d ++ w3 ++ lit "Intel" ++ w4 ++ lit "Corporation"
             ++ post /\
       forallb is_space w1 = true /\
       (p = "c"%char \/ p = "C"%char) /\
       forallb is_space w2 = true /\
       forallb digit_space_hyphen d = true /\
       forallb is_space w3 = true /\
       forallb is_space w4 = true)
  /\ found (is_intel_copyright (lit "Copyright (c) 2019 Intel Corporation"))
     = true
  /\ found (is_intel_copyright (lit "Copyright 2019 Intel Corporation"))
     = false.
Proof.
  split; [|split; vm_compute; reflexivity].
  intros s. unfold is_intel_copyright. rewrite search_found_iff. split.
  - intros (pre & mid & post & -> & Hm).
    apply matches_intel_re in Hm
      as (a & w1 & p & w2 & d & w3 & w4 & post' & -> & _ & H1 & Hp & H2
          & Hd & H3 & H4 & _).
    exists (pre ++ a), w1, p, w2, d, w3, w4, (post' ++ post).
    repeat split; try assumption.
    repeat (rewrite <- ?app_assoc; simpl). reflexivity.
  - intros (pre & w1 & p & w2 & d & w3 & w4 & post & -> & H1 & Hp & H2
            & Hd & H3 & H4).
    exists pre, (lit "Copyright" ++ w1 ++ "("%char :: p :: ")"%char
                 :: w2 ++ d ++ w3 ++ lit "Intel" ++ w4
                 ++ lit "Corporation"), post.
    split.
    + repeat (rewrite <- ?app_assoc; simpl). reflexivity.
    + apply matches_intel_re. exists [], w1, p, w2, d, w3, w4, [].
      repeat split; assumption.
Qed.

(** ** The per-file copyright check *)

(** An organizational notice is never the empty string, so it is
    truthy when the loop tests [if intel_copyright]. *)
Lemma is_intel_truthy (s : str) : is_intel s = true -> truthy s = true.
Proof.
  destruct s; [|reflexivity]. vm_compute. discriminate.
Qed.

Lemma find_intel_none_intel (acc : str) (l : list str) :
  filter is_intel l = [] -> find_intel acc l = Some acc.
Proof.
  induction l as [|c l IH]; simpl; [reflexivity|].
  fold (is_intel c). destruct (is_intel c); [discriminate|exact IH].
Qed.

Lemma find_intel_second (acc : str) (l : list str) :
  truthy acc = true -> filter is_intel l <> [] -> find_intel acc l = None.
Proof.
  intros Hacc. induction l as [|c l IH]; simpl; [congruence|].
  fold (is_intel c). destruct (is_intel c); [now rewrite Hacc|exact IH].
Qed.

Lemma find_intel_first (l : list str) (n : str) (more : list str) :
  filter is_intel l = n :: more ->
  find_intel [] l = match more with [] => Some n | _ :: _ => None end.
Proof.
  induction l as [|c l IH]; simpl; [discriminate|].
  fold (is_intel c). destruct (is_intel c) eqn:Hc; [|exact IH].
  intros H. injection H as -> Hmore.
  destruct more as [|m more].
  - now apply find_intel_none_intel.
  - apply find_intel_second; [now apply is_intel_truthy|].
    rewrite Hmore. discriminate.
Qed.


(** C2 (as stated, refuted): the block
    ["/* Copyright 2019-2018 Intel Corporation */"] passes the check. *)
Lemma reversed_range_without_c_passes :
  is_copyright_correct (init [] [] [])
    [lit "/* Copyright 2019-2018 Intel Corporation */"]
  = Return (true, init [] [] []).
Proof. vm_compute. reflexivity. Qed.


(** ** Parsing the years of a notice *)

Lemma is_digit_not_space (c : ascii) :
  is_digit c = true -> is_space c = false.
Proof.
  destruct c as [[|] [|] [|] [|] [|] [|] [|] [|]];
    vm_compute; congruence.
Qed.

Lemma is_digit_not_sign (c : ascii) :
  is_digit c = true ->
  Ascii.eqb c "-" = false /\ Ascii.eqb c "+" = false.
Proof.
  destruct c as [[|] [|] [|] [|] [|] [|] [|] [|]];
    vm_compute; intuition congruence.
Qed.

Lemma lstrip_spaces (sp t : str) :
  forallb is_space sp = true -> lstrip (sp ++ t) = lstrip t.
Proof.
  induction sp as [|c sp IH]; simpl; [reflexivity|].
  intros H. apply andb_true_iff in H as [Hc H]. now rewrite Hc, IH.
Qed.

Lemma lstrip_digits (d t : str) :
  forallb is_digit d = true -> d <> [] -> lstrip (d ++ t) = d ++ t.
Proof.
  destruct d as [|c d]; [congruence|]. simpl. intros H _.
  apply andb_true_iff in H as [Hc _].
  now rewrite (is_digit_not_space _ Hc).
Qed.

Lemma forallb_rev {X : Type} (f : X -> bool) (l : list X) :
  forallb f (rev l) = forallb f l.
Proof.
  induction l as [|x l IH]; simpl; [reflexivity|].
  rewrite forallb_app, IH. simpl. rewrite andb_true_r. apply andb_comm.
Qed.

(** Digits between two runs of whitespace are what [strip] leaves. *)
Lemma strip_padded_digits (sp d sp' : str) :
  forallb is_space sp = true -> forallb is_space sp' = true ->
  forallb is_digit d = true -> d <> [] ->
  strip (sp ++ d ++ sp') = d.
Proof.
  intros Hsp Hsp' Hd Hne. unfold strip, rstrip.
  rewrite lstrip_spaces, lstrip_digits by assumption.
  rewrite rev_app_distr, lstrip_spaces by now rewrite forallb_rev.
  rewrite <- (app_nil_r (rev d)), lstrip_digits.
  - rewrite app_nil_r. apply rev_involutive.
  - now rewrite forallb_rev.
  - intros E. apply (f_equal (@rev ascii)) in E.
    rewrite rev_involutive in E. now apply Hne.
Qed.

Lemma int_digits_total (d : str) :
  forallb is_digit d = true ->
  forall acc after_digit, d <> [] \/ after_digit = true ->
  exists z, int_digits acc after_digit d = Some z.
Proof.
  induction d as [|c d IH]; simpl; intros H acc b Hb.
  - destruct Hb as [Hb| ->]; [congruence|eauto].
  - apply andb_true_iff in H as [Hc H]. rewrite Hc. apply IH; auto.
Qed.

(** [int] succeeds on digits surrounded by whitespace. *)
Lemma int_padded_digits (sp d sp' : str) :
  forallb is_space sp = true -> forallb is_space sp' = true ->
  forallb is_digit d = true -> d <> [] ->
  exists z, PyStr.int (sp ++ d ++ sp') = Some z.
Proof.
  intros Hsp Hsp' Hd Hne. unfold PyStr.int.
  rewrite strip_padded_digits by assumption.
  destruct d as [|c d]; [congruence|].
  pose proof Hd as Hc. simpl in Hc. apply andb_true_iff in Hc as [Hc _].
  destruct (is_digit_not_sign _ Hc) as [-> ->].
  apply int_digits_total; auto.
Qed.

Lemma split_aux_no_sep (sep : ascii) (s cur : str) :
  contains_char sep s = false -> split_aux sep cur s = [rev cur ++ s].
Proof.
  unfold contains_char. revert cur.
  induction s as [|c s IH]; cbn [existsb split_aux]; intros cur H.
  - now rewrite app_nil_r.
  - apply orb_false_iff in H as [Hc H]. rewrite Ascii.eqb_sym, Hc.
    rewrite IH by assumption. simpl. now rewrite <- app_assoc.
Qed.

Lemma split_aux_at_sep (sep : ascii) (a b cur : str) :
  contains_char sep a = false ->
  split_aux sep cur (a ++ sep :: b) = (rev cur ++ a) :: split_aux sep [] b.
Proof.
  unfold contains_char. revert cur.
  induction a as [|c a IH]; cbn [existsb split_aux app]; intros cur H.
  - now rewrite Ascii.eqb_refl, app_nil_r.
  - apply orb_false_iff in H as [Hc H]. rewrite Ascii.eqb_sym, Hc.
    rewrite IH by assumption. simpl. now rewrite <- app_assoc.
Qed.

Lemma digits_no_hyphen (d : str) :
  forallb is_digit d = true -> contains_char "-" d = false.
Proof.
  unfold contains_char.
  induction d as [|c d IH]; cbn [existsb forallb]; [reflexivity|].
  intros H. apply andb_true_iff in H as [Hc H].
  destruct (is_digit_not_sign _ Hc) as [Hm _].
  now rewrite Ascii.eqb_sym, Hm, IH.
Qed.

Lemma opt_space_facts (s : str) :
  opt_space s -> forallb is_space s = true /\ contains_char "-" s = false.
Proof. intros [->| ->]; split; reflexivity. Qed.

(** The texts [year_re] matches: four digits, or four digits, an
    optional space, a hyphen, an optional space and four digits. *)
Lemma matches_year_re (g : str) :
  matches year_re g ->
  exists d,
    (List.length d = 4%nat /\ forallb is_digit d = true) /\
    (g = d \/
     exists a sp sp',
       (List.length a = 4%nat /\ forallb is_digit a = true) /\
       opt_space sp /\ opt_space sp' /\
       g = (a ++ sp) ++ "-"%char :: (sp' ++ d)).
Proof.
  unfold year_re. cbn [matches].
  intros (s1 & d & -> & Hfirst & Hd). exists d. split; [exact Hd|].
  destruct Hfirst as [->|(a & ? & -> & Ha & sp & ? & -> & Hsp & ? & sp'
                          & -> & -> & Hsp')].
  - now left.
  - right. exists a, sp, sp'. destruct Ha as [Ha1 Ha2].
    repeat split; try assumption.
    repeat (rewrite <- ?app_assoc; simpl). reflexivity.
Qed.

Lemma four_digits_nonempty (d : str) : List.length d = 4%nat -> d <> [].
Proof. destruct d; simpl; [lia|congruence]. Qed.

(** What [get_copyright_year_or_range] does with the matched text
    never raises: the text splits into one or two pieces that [int]
    reads. *)
Lemma years_of_group (g : str) :
  matches year_re g ->
  exists r,
    (years <- map_result (fun year => of_option ValueError (PyStr.int year))
                (split g "-") ;;
     if (List.length years =? 2)%nat then Return (Some (Range years))
     else year0 <- of_option IndexError (nth_error years 0) ;;
          Return (Some (Year year0)))
    = Return (Some r)
    /\ (forall l, r = Range l -> exists a b, l = [a; b]).
Proof.
  intros Hm.
  apply matches_year_re in Hm as (d & [Hd4 Hd] & Hshape).
  pose proof (four_digits_nonempty _ Hd4) as Hdne.
  destruct Hshape as [->|(a & sp & sp' & [Ha4 Ha] & Hsp & Hsp' & ->)].
  - unfold split. rewrite split_aux_no_sep by now apply digits_no_hyphen.
    destruct (int_padded_digits [] d [] eq_refl eq_refl Hd Hdne) as [z Hz].
    simpl in Hz. rewrite app_nil_r in Hz.
    cbn [rev app map_result bind of_option]. rewrite Hz.
    cbn [rev app map_result bind of_option].
    exists (Year z). split; [reflexivity|discriminate].
  - pose proof (four_digits_nonempty _ Ha4) as Hane.
    apply opt_space_facts in Hsp as [Hsp1 Hsp2].
    apply opt_space_facts in Hsp' as [Hsp'1 Hsp'2].
    assert (H1 : contains_char "-" (a ++ sp) = false).
    { now rewrite contains_char_app, (digits_no_hyphen a Ha), Hsp2. }
    assert (H2 : contains_char "-" (sp' ++ d) = false).
    { now rewrite contains_char_app, (digits_no_hyphen d Hd), Hsp'2. }
    unfold split.
    rewrite (split_aux_at_sep _ _ _ _ H1), (split_aux_no_sep _ _ _ H2).
    destruct (int_padded_digits [] a sp eq_refl Hsp1 Ha Hane) as [z1 Hz1].
    destruct (int_padded_digits sp' d [] Hsp'1 eq_refl Hd Hdne) as [z2 Hz2].
    simpl in Hz1. rewrite app_nil_r in Hz2.
    cbn [rev app map_result bind of_option]. rewrite Hz1.
    cbn [rev app map_result bind of_option]. rewrite Hz2.
    cbn [rev app map_result bind of_option].
    exists (Range [z1; z2]). split; [reflexivity|].
    intros l E. injection E as <-. eauto.
Qed.

(** [get_copyright_year_or_range] never raises, and a range it returns
    has exactly two years. *)
Lemma year_or_range_total (s : str) :
  exists r,
    get_copyright_year_or_range s = Return r /\
    (search year_re s <> None -> r <> None) /\
    (forall l, r = Some (Range l) -> exists a b, l = [a; b]).
Proof.
  unfold get_copyright_year_or_range.
  destruct (search year_re s) as [m|] eqn:E.
  - apply search_from_sound in E as (_ & _ & _ & Hm & _).
    destruct (years_of_group _ Hm) as (r & -> & Hr).
    exists (Some r). split; [reflexivity|]. split; [discriminate|].
    intros l El. injection El as ->. now apply Hr.
  - exists None. split; [reflexivity|]. split; [congruence|discriminate].
Qed.

(** Four digits in a text are enough for the year pattern to be
    found. *)
Lemma year_re_found (pre d post : str) :
  List.length d = 4%nat -> forallb is_digit d = true ->
  search year_re (pre ++ d ++ post) <> None.
Proof.
  intros Hd4 Hd. apply search_from_complete.
  unfold year_re. cbn [matches]. exists [], d. auto.
Qed.

(** A copyright string always parses: to a year, or to a range of
    two years. *)
Lemma copyright_string_parses (s : str) :
  is_copyright_string s = true ->
  exists y,
    get_copyright_year_or_range s = Return (Some y) /\
    (forall l, y = Range l -> exists a b, l = [a; b]).
Proof.
  intros Hs.
  apply is_copyright_string_iff in Hs
    as (pre & first & w & gap & d & post & -> & _ & _ & _ & Hd4 & Hd).
  destruct (year_or_range_total
              (pre ++ first :: lit "opyright" ++ w ++ gap ++ d ++ post))
    as (r & Hr & Hsome & Hlen).
  destruct r as [y|].
  - exists y. split; [exact Hr|]. intros l ->. now apply Hlen.
  - exfalso. apply Hsome; [|reflexivity].
    replace (pre ++ first :: lit "opyright" ++ w ++ gap ++ d ++ post)
      with ((pre ++ first :: lit "opyright" ++ w ++ gap) ++ d ++ post)
      by (repeat (rewrite <- ?app_assoc; simpl); reflexivity).
    now apply year_re_found.
Qed.

(** What the loop leaves in [intel_copyright] is the initial value or
    one of the strings. *)
Lemma find_intel_in (intel : str) (l : list str) : forall acc,
  find_intel acc l = Some intel -> acc = intel \/ In intel l.
Proof.
  induction l as [|x l IH]; simpl; intros acc H.
  - left. congruence.
  - destruct (is_intel x).
    + destruct (truthy acc); [discriminate|].
      apply IH in H as [->|H]; auto.
    + apply IH in H as [->|H]; auto.
Qed.

(** The check once the loop has selected the notice [n] and its years
    are parsed. *)
Lemma check_with_notice (self : CopyrightChecker) (tested_strings : list str)
  (n : str) (y : year_or_range) :
  get_copyright_strings tested_strings <> [] ->
  find_intel [] (get_copyright_strings tested_strings) = Some n ->
  truthy n = true ->
  get_copyright_year_or_range n = Return (Some y) ->
  is_copyright_correct self tested_strings
  = match y with
    | Year year =>
        if negb (year =? YEAR)
        then Return (false, append_details self (msg_year n))
        else Return (true, self)
    | Range range =>
        p <- unpack2 range ;;
        if negb (snd p =? YEAR) || (snd p <=? fst p)
        then Return (false, append_details self (msg_range n))
        else Return (true, self)
    end.
Proof.
  intros Hne Hf Ht Hy. unfold is_copyright_correct.
  destruct (get_copyright_strings tested_strings) as [|c cs];
    [congruence|].
  rewrite Hf, Ht, Hy. cbn [negb bind]. destruct y as [year|range].
  - reflexivity.
  - destruct (unpack2 range) as [[a b]|e]; reflexivity.
Qed.

(** The notice of a block with exactly one organizational notice. *)
Lemma single_notice_selected (tested_strings : list str) (n : str) :
  filter is_intel (get_copyright_strings tested_strings) = [n] ->
  get_copyright_strings tested_strings <> [] /\
  find_intel [] (get_copyright_strings tested_strings) = Some n /\
  truthy n = true /\
  is_copyright_string n = true.
Proof.
  intros H.
  assert (Hin : In n (filter is_intel
                        (get_copyright_strings tested_strings))).
  { rewrite H. now left. }
  apply filter_In in Hin as [Hin Hintel].
  repeat split.
  - intros E. now rewrite E in Hin.
  - now rewrite (find_intel_first _ _ _ H).
  - now apply is_intel_truthy.
  - unfold get_copyright_strings in Hin. now apply filter_In in Hin.
Qed.

(** C1: when the copyright strings of a block hold exactly one
    organizational notice, the check returns a verdict, and it passes
    exactly when the notice parses as the single year 2019 or as a
    range [A, B] with B = 2019 and A < B; otherwise it fails. *)
Theorem single_notice_verdict (self : CopyrightChecker)
  (tested_strings : list str) (n : str) :
  filter is_intel (get_copyright_strings tested_strings) = [n] ->
  exists (b : bool) (self' : CopyrightChecker),
    is_copyright_correct self tested_strings = Return (b, self') /\
    (b = true <->
     get_copyright_year_or_range n = Return (Some (Year 2019)) \/
     exists A B,
       get_copyright_year_or_range n = Return (Some (Range [A; B])) /\
       B = 2019 /\ A < B).
Proof.
  intros H.
  destruct (single_notice_selected _ _ H) as (Hne & Hf & Ht & Hc).
  destruct (copyright_string_parses _ Hc) as (y & Hy & Hlen).
  rewrite (check_with_notice self _ _ _ Hne Hf Ht Hy), Hy.
  destruct y as [year|range].
  - destruct (Z.eqb_spec year YEAR) as [->|Hneq]; cbn [negb].
    + exists true, self. split; [reflexivity|]. split; [now left|auto].
    + exists false, (append_details self (msg_year n)).
      split; [reflexivity|]. split; [discriminate|].
      intros [E|(A & B & E & _)]; [|discriminate].
      injection E as ->. now elim Hneq.
  - destruct (Hlen _ eq_refl) as (A & B & ->). cbn [unpack2 bind fst snd].
    destruct (Z.eqb_spec B YEAR) as [->|Hneq]; cbn [negb orb].
    + destruct (Z.leb_spec YEAR A) as [Hle|Hlt].
      * exists false, (append_details self (msg_range n)).
        split; [reflexivity|]. split; [discriminate|].
        intros [E|(A' & B' & E & HB & HA)]; [discriminate|].
        injection E as <- <-. lia.
      * exists true, self. split; [reflexivity|]. split; [|auto].
        intros _. right. exists A, YEAR. auto.
    + exists false, (append_details self (msg_range n)).
      split; [reflexivity|]. split; [discriminate|].
      intros [E|(A' & B' & E & HB & HA)]; [discriminate|].
      injection E as <- <-. now elim Hneq.
Qed.

Lemma single_notice_verdict_witness :
  filter is_intel
    (get_copyright_strings [lit "// Copyright (c) 2018-2019 Intel Corporation"])
  = [lit "// Copyright (c) 2018-2019 Intel Corporation"]
  /\ exists (b : bool) (self' : CopyrightChecker),
       is_copyright_correct (init [] [] [])
         [lit "// Copyright (c) 2018-2019 Intel Corporation"]
       = Return (b, self') /\
       (b = true <->
        get_copyright_year_or_range
          (lit "// Copyright (c) 2018-2019 Intel Corporation")
        = Return (Some (Year 2019)) \/
        exists A B,
          get_copyright_year_or_range
            (lit "// Copyright (c) 2018-2019 Intel Corporation")
          = Return (Some (Range [A; B])) /\
          B = 2019 /\ A < B).
Proof.
  split; [vm_compute; reflexivity|].
  apply (single_notice_verdict (init [] [] [])
           [lit "// Copyright (c) 2018-2019 Intel Corporation"]
           (lit "// Copyright (c) 2018-2019 Intel Corporation")).
  vm_compute. reflexivity.
Defined.

Lemma details_differ (self : CopyrightChecker) (m1 m2 : str) :
  m1 <> m2 ->
  details (append_details self m1)
  <> details self ++ [src_file self ++ lit ":"; m2].
Proof.
  intros Hne E. simpl in E. apply app_inv_head in E.
  injection E as E. now apply Hne.
Qed.

Lemma details_unchanged (self : CopyrightChecker) (m : str) :
  details self <> details self ++ [src_file self ++ lit ":"; m].
Proof.
  intros E. apply (f_equal (@List.length str)) in E.
  rewrite length_app in E. simpl in E. lia.
Qed.

(** C9: a string the classifier accepts as a copyright string always
    parses to a year or a range, never to no match; so the check always
    returns, and never with the required-format detail of its
    parse-failure branch. *)
Theorem parse_failure_unreachable :
  (forall s : str,
     is_copyright_string s = true ->
     exists y, get_copyright_year_or_range s = Return (Some y))
  /\ (forall (self : CopyrightChecker) (tested_strings : list str),
        exists (b : bool) (self' : CopyrightChecker),
          is_copyright_correct self tested_strings = Return (b, self') /\
          forall intel_copyright : str,
            details self'
            <> details self ++ [src_file self ++ lit ":";
                                msg_format intel_copyright]).
Proof.
  split.
  { intros s Hs. destruct (copyright_string_parses s Hs) as (y & Hy & _).
    eauto. }
  intros self tested_strings.
  destruct (get_copyright_strings tested_strings) as [|c cs] eqn:Ecs.
  { unfold is_copyright_correct. rewrite Ecs.
    do 2 eexists. split; [reflexivity|].
    intros i. apply details_differ. discriminate. }
  destruct (find_intel [] (c :: cs)) as [intel|] eqn:Ef.
  2:{ unfold is_copyright_correct. rewrite Ecs, Ef.
      do 2 eexists. split; [reflexivity|].
      intros i. apply details_differ. discriminate. }
  destruct (truthy intel) eqn:Et.
  2:{ unfold is_copyright_correct. rewrite Ecs, Ef, Et.
      do 2 eexists. split; [reflexivity|].
      intros i. apply details_unchanged. }
  assert (Hc : is_copyright_string intel = true).
  { apply find_intel_in in Ef as [<-|Hin]; [discriminate|].
    rewrite <- Ecs in Hin. unfold get_copyright_strings in Hin.
    now apply filter_In in Hin. }
  destruct (copyright_string_parses _ Hc) as (y & Hy & Hlen).
  rewrite <- Ecs in Ef.
  rewrite (check_with_notice self tested_strings intel y);
    [|rewrite Ecs; discriminate|assumption..].
  destruct y as [year|range].
  - destruct (negb (year =? YEAR)).
    + do 2 eexists. split; [reflexivity|].
      intros i. apply details_differ. discriminate.
    + do 2 eexists. split; [reflexivity|].
      intros i. apply details_unchanged.
  - destruct (Hlen _ eq_refl) as (A & B & ->). cbn [unpack2 bind fst snd].
    destruct (negb (B =? YEAR) || (B <=? A)).
    + do 2 eexists. split; [reflexivity|].
      intros i. apply details_differ. discriminate.
    + do 2 eexists. split; [reflexivity|].
      intros i. apply details_unchanged.
Qed.

Lemma parse_failure_unreachable_witness :
  is_copyright_string (lit "// copyright 12019") = true /\
  exists y,
    get_copyright_year_or_range (lit "// copyright 12019")
    = Return (Some y).
Proof.
  split; [reflexivity|].
  apply (proj1 parse_failure_unreachable (lit "// copyright 12019")).
  reflexivity.
Defined.

(** ** The comment extractor *)

Lemma find_from_start (s sub : str) : find s sub 0 = find_at s sub 0.
Proof.
  unfold find. cbn [Z.ltb Z.compare].
  destruct (Z.ltb_spec (Z.of_nat (List.length s)) 0) as [H|_]; [lia|].
  reflexivity.
Qed.

(** [find] answers a position exactly when the text occurs. *)
Lemma find_at_occurs (sub : str) : forall (s : str) (pos : Z),
  0 <= pos -> (0 <= find_at s sub pos <-> occurs sub s).
Proof.
  induction s as [|c s IH]; intros pos Hpos; simpl.
  - destruct (startswith [] sub) eqn:E.
    + split; [|lia]. intros _. apply startswith_iff in E as [rest E].
      exists [], rest. exact E.
    + split; [lia|]. intros (a & b & Hs).
      destruct a; [|discriminate]. simpl in Hs.
      destruct sub; [simpl in E; discriminate E|discriminate Hs].
  - destruct (startswith (c :: s) sub) eqn:E.
    + split; [|lia]. intros _. apply startswith_iff in E as [rest E].
      exists [], rest. exact E.
    + rewrite IH by lia. split.
      * intros (a & b & ->). now exists (c :: a), b.
      * intros (a & b & Hs). destruct a as [|c' a].
        -- simpl in Hs. rewrite Hs, startswith_app in E. discriminate.
        -- injection Hs as _ ->. now exists a, b.
Qed.

Lemma lstrip_occurs (sub a b : str) (c : ascii) (t : str) :
  sub = c :: t -> is_space c = false ->
  exists a', lstrip (a ++ sub ++ b) = a' ++ sub ++ b.
Proof.
  intros -> Hc. induction a as [|x a IH]; simpl.
  - rewrite Hc. now exists [].
  - destruct (is_space x); [exact IH|]. now exists (x :: a).
Qed.

(** Stripping a line keeps an occurrence of "//". *)
Lemma strip_occurs_slashes (raw : str) :
  occurs (lit "//") raw -> occurs (lit "//") (strip raw).
Proof.
  intros (a & b & ->). unfold strip, rstrip.
  destruct (lstrip_occurs (lit "//") a b "/" (lit "/") eq_refl eq_refl)
    as [a' ->].
  rewrite !rev_app_distr, <- app_assoc.
  change (rev (lit "//")) with (lit "//").
  destruct (lstrip_occurs (lit "//") (rev b) (rev a') "/" (lit "/")
              eq_refl eq_refl) as [b' ->].
  rewrite !rev_app_distr, rev_involutive, <- app_assoc.
  change (rev (lit "//")) with (lit "//").
  now exists a', (rev b').
Qed.

Lemma occurs_truthy (sub s : str) :
  sub <> [] -> occurs sub s -> truthy s = true.
Proof.
  intros Hne (a & b & ->). destruct a; [|reflexivity].
  destruct sub; [congruence|reflexivity].
Qed.

(** C10: outside a multi-line comment, a line with "//" anywhere in it
    is recorded whole (trimmed) and scanning goes on; so a line that
    starts with code, such as "int x; // note", ends up in the leading
    block. *)
Theorem slashes_anywhere_recorded :
  (forall (st : scan_state) (line : str),
     multiline_comment st = false ->
     occurs (lit "//") line ->
     exists st',
       loop_body st line = Continue st' /\
       comments st' = comments st ++ [strip line])
  /\ get_leading_comments
       [lit "// header"; lit "int x; // note"; lit "int y;"]
     = [lit "// header"; lit "int x; // note"].
Proof.
  split; [|vm_compute; reflexivity].
  intros st line Hmode Hocc. apply strip_occurs_slashes in Hocc.
  assert (Htruthy : truthy (strip line) = true).
  { apply (occurs_truthy (lit "//")); [discriminate|exact Hocc]. }
  unfold loop_body. rewrite Htruthy, Hmode. cbn [negb].
  destruct (find (strip line) (lit "/*") 0 >=? 0).
  - eexists. split; [reflexivity|].
    destruct (find (strip line) (lit "*/") _ =? SUBSTRING_IS_NOT_FOUND);
      reflexivity.
  - rewrite find_from_start.
    apply (find_at_occurs (lit "//") (strip line) 0) in Hocc; [|lia].
    apply Z.geb_le in Hocc. rewrite Hocc.
    eexists. split; reflexivity.
Qed.

Lemma slashes_anywhere_recorded_witness :
  multiline_comment initial = false /\
  occurs (lit "//") (lit "int x; // note") /\
  exists st',
    loop_body initial (lit "int x; // note") = Continue st' /\
    comments st' = comments initial ++ [strip (lit "int x; // note")].
Proof.
  assert (Hocc : occurs (lit "//") (lit "int x; // note")).
  { exists (lit "int x; "), (lit " note"). reflexivity. }
  split; [reflexivity|]. split; [exact Hocc|].
  apply (proj1 slashes_anywhere_recorded initial (lit "int x; // note"));
    [reflexivity|exact Hocc].
Defined.

Lemma loop_app (pre rest : list str) : forall st,
  loop st (pre ++ rest)
  = match loop st pre with
    | Continue st' => loop st' rest
    | Break st' => Break st'
    end.
Proof.
  induction pre as [|l pre IH]; intros st; simpl; [reflexivity|].
  destruct (loop_body st l); [apply IH|reflexivity].
Qed.

(** Inside a multi-line comment, lines without a closer are all taken:
    the blank ones skipped, the others recorded trimmed. *)
Lemma loop_absorbs (rest : list str) : forall st,
  multiline_comment st = true ->
  Forall (fun l => find (strip l) (lit "*/") 0 = -1) rest ->
  loop st rest
  = Continue {| comments := comments st ++ filter truthy (map strip rest);
                multiline_comment := true |}.
Proof.
  induction rest as [|l rest IH]; intros st Hmode Hrest.
  - simpl. rewrite app_nil_r. destruct st; simpl in *. now subst.
  - inversion Hrest as [|? ? Hl Hrest']; subst. cbn [loop map filter].
    unfold loop_body. rewrite Hmode, Hl. cbn [negb Z.geb Z.compare].
    destruct (truthy (strip l)); cbn [negb].
    + rewrite IH by assumption. cbn [append comments].
      now rewrite <- app_assoc.
    + now apply IH.
Qed.



(** ** More on the comment extractor *)

(** The three ways one turn of the loop can go. *)
Lemma loop_body_cases (st : scan_state) (line : str) :
  (truthy (strip line) = false /\ loop_body st line = Continue st)
  \/ (truthy (strip line) = true /\
      exists b, loop_body st line
                = Continue {| comments := comments st ++ [strip line];
                              multiline_comment := b |})
  \/ (truthy (strip line) = true /\ multiline_comment st = false /\
      find (strip line) (lit "/*") 0 < 0 /\
      find (strip line) (lit "//") 0 < 0 /\
      loop_body st line = Break st).
Proof.
  unfold loop_body. destruct (truthy (strip line)); cbn [negb]; [|now left].
  right. destruct (multiline_comment st) eqn:Hmode; cbn [negb].
  - left. split; [reflexivity|].
    destruct (find (strip line) (lit "*/") 0 >=? 0); eexists;
      unfold append, set_multiline; cbn [comments multiline_comment];
      reflexivity.
  - destruct (Z.geb_spec (find (strip line) (lit "/*") 0) 0) as [H1|H1].
    + left. split; [reflexivity|].
      destruct (find (strip line) (lit "*/") _ =? SUBSTRING_IS_NOT_FOUND);
        eexists; unfold append, set_multiline;
        cbn [comments multiline_comment]; reflexivity.
    + destruct (Z.geb_spec (find (strip line) (lit "//") 0) 0) as [H2|H2].
      * left. split; [reflexivity|]. eexists. unfold append.
        rewrite Hmode. reflexivity.
      * right. repeat split; (reflexivity || lia).
Qed.

(** X1: blank lines (empty once trimmed) never matter: the extractor
    returns the same block when they are all removed from the input,
    wherever they stand. *)
Theorem blank_lines_skipped (stream : list str) :
  get_leading_comments stream
  = get_leading_comments (filter (fun l => truthy (strip l)) stream).
Proof.
  unfold get_leading_comments. f_equal. f_equal.
  generalize initial as st.
  induction stream as [|l stream IH]; intros st; [reflexivity|].
  cbn [filter loop].
  destruct (loop_body_cases st l) as [[Hb Hl]|[[Hb Hl]|(Hb & _ & _ & _ & Hl)]];
    rewrite Hb.
  - rewrite Hl. apply IH.
  - destruct Hl as [b Hl]. cbn [loop]. rewrite Hl. apply IH.
  - cbn [loop]. now rewrite Hl.
Qed.

(** The comments already collected do not influence the scan: with
    more of them in front, one turn of the loop goes the same way. *)
Lemma loop_body_shift (front : list str) (st : scan_state) (line : str) :
  loop_body {| comments := front ++ comments st;
               multiline_comment := multiline_comment st |} line
  = match loop_body st line with
    | Continue s => Continue {| comments := front ++ comments s;
                                multiline_comment := multiline_comment s |}
    | Break s => Break {| comments := front ++ comments s;
                          multiline_comment := multiline_comment s |}
    end.
Proof.
  unfold loop_body, append, set_multiline.
  cbn [comments multiline_comment].
  destruct (negb (truthy (strip line))); [reflexivity|].
  destruct (negb (multiline_comment st)).
  - destruct (find (strip line) (lit "/*") 0 >=? 0).
    + destruct (find (strip line) (lit "*/") _ =? SUBSTRING_IS_NOT_FOUND);
        cbn [comments multiline_comment]; now rewrite app_assoc.
    + destruct (find (strip line) (lit "//") 0 >=? 0); [|reflexivity].
      cbn [comments multiline_comment]. now rewrite app_assoc.
  - destruct (find (strip line) (lit "*/") 0 >=? 0);
      cbn [comments multiline_comment]; now rewrite app_assoc.
Qed.

Lemma loop_shift (front : list str) (stream : list str) : forall st,
  loop {| comments := front ++ comments st;
          multiline_comment := multiline_comment st |} stream
  = match loop st stream with
    | Continue s => Continue {| comments := front ++ comments s;
                                multiline_comment := multiline_comment s |}
    | Break s => Break {| comments := front ++ comments s;
                          multiline_comment := multiline_comment s |}
    end.
Proof.
  induction stream as [|l stream IH]; intros st; [reflexivity|].
  cbn [loop]. rewrite loop_body_shift.
  destruct (loop_body st l) as [s|s]; [apply IH|reflexivity].
Qed.

Lemma loop_prefix_of_trimmed (stream : list str) : forall st,
  exists rest,
    comments st ++ filter truthy (map strip stream)
    = comments (final (loop st stream)) ++ rest.
Proof.
  induction stream as [|l stream IH]; intros st.
  - exists []. reflexivity.
  - cbn [loop map filter].
    destruct (loop_body_cases st l) as [[Hb Hl]|[[Hb Hl]|(Hb & _ & _ & _ & Hl)]];
      rewrite Hb.
    + rewrite Hl. apply IH.
    + destruct Hl as [b ->].
      destruct (IH {| comments := comments st ++ [strip l];
                      multiline_comment := b |}) as [rest Hrest].
      exists rest. rewrite <- Hrest. cbn [comments].
      now rewrite <- app_assoc.
    + rewrite Hl. cbn [final]. eauto.
Qed.

(** X2: the block returned is a leading part of the input once every
    line is trimmed and the blank ones dropped: lines come out
    trimmed, non-empty, in input order, with none left out before the
    point where the scan stops. *)
Theorem leading_block_is_prefix (stream : list str) :
  exists rest,
    filter truthy (map strip stream) = get_leading_comments stream ++ rest.
Proof.
  destruct (loop_prefix_of_trimmed stream initial) as [rest H].
  exists rest. exact H.
Qed.

Lemma lstrip_fixed (s : str) :
  lstrip s = [] \/ exists c t, lstrip s = c :: t /\ is_space c = false.
Proof.
  induction s as [|c s IH]; simpl; [now left|].
  destruct (is_space c) eqn:Hc; [exact IH|]. right. eauto.
Qed.

Lemma lstrip_idem (s : str) : lstrip (lstrip s) = lstrip s.
Proof.
  destruct (lstrip_fixed s) as [->|(c & t & -> & Hc)]; [reflexivity|].
  simpl. now rewrite Hc.
Qed.

(** Trimming a trimmed line changes nothing. *)
Lemma strip_idem (s : str) : strip (strip s) = strip s.
Proof.
  unfold strip.
  assert (Hl : lstrip (rstrip (lstrip s)) = rstrip (lstrip s)).
  { destruct (lstrip_fixed s) as [->|(c & t & -> & Hc)]; [reflexivity|].
    unfold rstrip. cbn [rev].
    destruct (lstrip_occurs [c] (rev t) [] c [] eq_refl Hc) as [a' Ha'].
    cbn [app] in Ha'. rewrite Ha', rev_app_distr. simpl. now rewrite Hc. }
  rewrite Hl. unfold rstrip. now rewrite rev_involutive, lstrip_idem.
Qed.

Lemma loop_body_strip (st : scan_state) (line : str) :
  loop_body st (strip line) = loop_body st line.
Proof. unfold loop_body. now rewrite strip_idem. Qed.

Lemma loop_rescan (stream : list str) : forall mode,
  loop {| comments := []; multiline_comment := mode |}
    (comments (final (loop {| comments := []; multiline_comment := mode |}
                        stream)))
  = Continue (final (loop {| comments := []; multiline_comment := mode |}
                       stream)).
Proof.
  induction stream as [|l stream IH]; intros mode; [reflexivity|].
  cbn [loop].
  destruct (loop_body_cases {| comments := []; multiline_comment := mode |} l)
    as [[Hb Hl]|[[Hb Hl]|(Hb & _ & _ & _ & Hl)]].
  - rewrite Hl. apply IH.
  - destruct Hl as [b Hl]. rewrite Hl. cbn [comments app] in *.
    pose proof (loop_shift [strip l] stream
                  {| comments := []; multiline_comment := b |}) as Hs.
    cbn [comments multiline_comment app] in Hs. rewrite Hs.
    specialize (IH b).
    destruct (loop {| comments := []; multiline_comment := b |} stream)
      as [s|s] eqn:E; cbn [final comments app loop] in *;
      rewrite loop_body_strip, Hl;
      pose proof (loop_shift [strip l] (comments s)
                    {| comments := []; multiline_comment := b |}) as Hs';
      cbn [comments multiline_comment app] in Hs'; rewrite Hs', IH;
      reflexivity.
  - rewrite Hl. reflexivity.
Qed.

(** X3: extracting is idempotent: the block returned is itself made of
    comment lines only, so extracting from it returns it unchanged. *)
Theorem get_leading_comments_idempotent (stream : list str) :
  get_leading_comments (get_leading_comments stream)
  = get_leading_comments stream.
Proof.
  unfold get_leading_comments, initial.
  now rewrite (loop_rescan stream false).
Qed.

Lemma not_occurs_find (sub s : str) :
  ~ occurs sub s -> (find s sub 0 >=? 0) = false.
Proof.
  intros H. rewrite find_from_start.
  destruct (Z.geb_spec (find_at s sub 0) 0) as [Hge|]; [|reflexivity].
  elim H. apply (find_at_occurs sub s 0); lia.
Qed.

(** X4: the scan stops at the first line of code: outside a
    multi-line comment, a non-blank line with neither "/*" nor "//"
    ends the block, and nothing after it is looked at, comments
    included. *)
Theorem stops_at_first_code_line (pre : list str) (code_line : str)
  (rest : list str) (st : scan_state) :
  loop initial pre = Continue st ->
  multiline_comment st = false ->
  strip code_line <> [] ->
  ~ occurs (lit "/*") (strip code_line) ->
  ~ occurs (lit "//") (strip code_line) ->
  get_leading_comments (pre ++ code_line :: rest) = get_leading_comments pre.
Proof.
  intros Hpre Hmode Hne Hblock Hslash.
  unfold get_leading_comments. rewrite loop_app, Hpre. cbn [loop final].
  unfold loop_body.
  destruct (strip code_line) as [|c t] eqn:E; [congruence|].
  cbn [truthy negb]. rewrite Hmode. cbn [negb].
  now rewrite (not_occurs_find _ _ Hblock), (not_occurs_find _ _ Hslash).
Qed.

Lemma occurs_find (sub s : str) :
  occurs sub s -> (find s sub 0 >=? 0) = true.
Proof.
  intros H. rewrite find_from_start. apply Z.geb_le.
  apply (find_at_occurs sub s 0); [lia|exact H].
Qed.

(** X5: a block comment opened on one line and closed on a later one
    is taken whole: the opener, every line up to the closer whatever
    it holds, and the closer; after the closer the extractor is back
    outside the comment. *)
Theorem block_comment_taken_whole (st : scan_state) (opener : str)
  (middle : list str) (closer : str) :
  multiline_comment st = false ->
  0 <= find (strip opener) (lit "/*") 0 ->
  find (strip opener) (lit "*/") (find (strip opener) (lit "/*") 0) = -1 ->
  Forall (fun l => find (strip l) (lit "*/") 0 = -1) middle ->
  occurs (lit "*/") (strip closer) ->
  loop st (opener :: middle ++ [closer])
  = Continue {| comments := comments st ++ strip opener
                            :: filter truthy (map strip middle)
                            ++ [strip closer];
                multiline_comment := false |}.
Proof.
  intros Hmode Hopen Hclose Hmid Hend.
  assert (Htruthy : truthy (strip opener) = true).
  { destruct (strip opener); [vm_compute in Hopen; tauto|reflexivity]. }
  change (opener :: middle ++ [closer])
    with ([opener] ++ middle ++ [closer]).
  rewrite loop_app. cbn [loop]. unfold loop_body at 1.
  rewrite Htruthy, Hmode, Hclose. cbn [negb].
  apply Z.geb_le in Hopen. rewrite Hopen.
  cbn [Z.eqb SUBSTRING_IS_NOT_FOUND Pos.eqb].
  rewrite loop_app, loop_absorbs by (assumption || reflexivity).
  assert (Hclosing : truthy (strip closer) = true).
  { apply (occurs_truthy (lit "*/")); [discriminate|exact Hend]. }
  cbn [loop]. unfold loop_body. rewrite Hclosing.
  cbn [negb multiline_comment]. rewrite (occurs_find _ _ Hend).
  unfold append, set_multiline. cbn [comments multiline_comment].
  now rewrite <- !app_assoc.
Qed.

(** ** More on parsing the years *)

Import Notions.

Lemma digit_val_range (c : ascii) :
  is_digit c = true -> 0 <= digit_val c <= 9.
Proof.
  unfold is_digit, digit_val. intros H.
  apply andb_true_iff in H as [H1 H2].
  apply N.leb_le in H1, H2. lia.
Qed.

Lemma int_digits_value (d : str) :
  forallb is_digit d = true ->
  forall acc after_digit, d <> [] \/ after_digit = true ->
  int_digits acc after_digit d
  = Some (fold_left (fun a c => 10 * a + digit_val c) d acc).
Proof.
  induction d as [|c d IH]; simpl; intros H acc b Hb.
  - destruct Hb as [Hb| ->]; [congruence|reflexivity].
  - apply andb_true_iff in H as [Hc H]. rewrite Hc. apply IH; auto.
Qed.

(** [int] reads digits surrounded by whitespace as the number they
    denote. *)
Lemma int_padded_value (sp d sp' : str) :
  forallb is_space sp = true -> forallb is_space sp' = true ->
  forallb is_digit d = true -> d <> [] ->
  PyStr.int (sp ++ d ++ sp') = Some (decimal d).
Proof.
  intros Hsp Hsp' Hd Hne. unfold PyStr.int.
  rewrite strip_padded_digits by assumption.
  destruct d as [|c d]; [congruence|].
  pose proof Hd as Hc. simpl in Hc. apply andb_true_iff in Hc as [Hc _].
  destruct (is_digit_not_sign _ Hc) as [-> ->].
  apply int_digits_value; auto.
Qed.

Lemma decimal_four_range (d : str) :
  four_digits d -> 0 <= decimal d <= 9999.
Proof.
  intros [H4 Hd]. destruct d as [|a [|b [|c [|e [|? ?]]]]]; try discriminate.
  simpl in Hd. rewrite !andb_true_iff in Hd.
  destruct Hd as (Ha & Hb & Hc & He & _).
  apply digit_val_range in Ha, Hb, Hc, He.
  unfold decimal. cbn [fold_left]. lia.
Qed.

(** The parse of the text the year pattern matched, with its value. *)
Lemma years_of_group_value (g : str) :
  matches year_re g ->
  exists r,
    (years <- map_result (fun year => of_option ValueError (PyStr.int year))
                (split g "-") ;;
     if (List.length years =? 2)%nat then Return (Some (Range years))
     else year0 <- of_option IndexError (nth_error years 0) ;;
          Return (Some (Year year0)))
    = Return (Some r)
    /\ ((exists d, four_digits d /\ g = d /\ r = Year (decimal d)) \/
        (exists a sp sp' d,
           four_digits a /\ opt_space sp /\ opt_space sp' /\ four_digits d /\
           g = (a ++ sp) ++ "-"%char :: (sp' ++ d) /\
           r = Range [decimal a; decimal d])).
Proof.
  intros Hm.
  apply matches_year_re in Hm as (d & [Hd4 Hd] & Hshape).
  pose proof (four_digits_nonempty _ Hd4) as Hdne.
  destruct Hshape as [->|(a & sp & sp' & [Ha4 Ha] & Hsp & Hsp' & ->)].
  - unfold split. rewrite split_aux_no_sep by now apply digits_no_hyphen.
    pose proof (int_padded_value [] d [] eq_refl eq_refl Hd Hdne) as Hz.
    simpl in Hz. rewrite app_nil_r in Hz.
    cbn [rev app map_result bind of_option]. rewrite Hz.
    cbn [rev app map_result bind of_option].
    exists (Year (decimal d)). split; [reflexivity|].
    left. exists d. repeat split; assumption.
  - pose proof (four_digits_nonempty _ Ha4) as Hane.
    pose proof Hsp as Hsp0. pose proof Hsp' as Hsp'0.
    apply opt_space_facts in Hsp as [Hsp1 Hsp2].
    apply opt_space_facts in Hsp' as [Hsp'1 Hsp'2].
    assert (H1 : contains_char "-" (a ++ sp) = false).
    { now rewrite contains_char_app, (digits_no_hyphen a Ha), Hsp2. }
    assert (H2 : contains_char "-" (sp' ++ d) = false).
    { now rewrite contains_char_app, (digits_no_hyphen d Hd), Hsp'2. }
    unfold split.
    rewrite (split_aux_at_sep _ _ _ _ H1), (split_aux_no_sep _ _ _ H2).
    pose proof (int_padded_value [] a sp eq_refl Hsp1 Ha Hane) as Hz1.
    pose proof (int_padded_value sp' d [] Hsp'1 eq_refl Hd Hdne) as Hz2.
    simpl in Hz1. rewrite app_nil_r in Hz2.
    cbn [rev app map_result bind of_option]. rewrite Hz1.
    cbn [rev app map_result bind of_option]. rewrite Hz2.
    cbn [rev app map_result bind of_option].
    exists (Range [decimal a; decimal d]). split; [reflexivity|].
    right. exists a, sp, sp', d. repeat split; assumption.
Qed.

(** X6: the years parsed are always numbers of at most four digits: a
    single year lies in 0..9999 and a range is two such numbers. *)
Theorem parsed_years_bounded (s : str) (y : year_or_range) :
  get_copyright_year_or_range s = Return (Some y) ->
  match y with
  | Year year => 0 <= year <= 9999
  | Range range =>
      exists from_year to_year,
        range = [from_year; to_year] /\
        0 <= from_year <= 9999 /\ 0 <= to_year <= 9999
  end.
Proof.
  unfold get_copyright_year_or_range.
  destruct (search year_re s) as [m|] eqn:E; [|discriminate].
  apply search_from_sound in E as (_ & _ & _ & Hm & _).
  destruct (years_of_group_value _ Hm) as (r & -> & Hr).
  intros H. injection H as <-.
  destruct Hr as [(d & Hd & _ & ->)|(a & sp & sp' & d & Ha & _ & _ & Hd & _
                                     & ->)].
  - now apply decimal_four_range.
  - exists (decimal a), (decimal d).
    split; [reflexivity|]. split; now apply decimal_four_range.
Qed.

Lemma parsed_years_bounded_witness :
  get_copyright_year_or_range (lit "(c) 2007 - 2019 Intel")
  = Return (Some (Range [2007; 2019]))
  /\ exists from_year to_year,
       [2007; 2019] = [from_year; to_year] /\
       0 <= from_year <= 9999 /\ 0 <= to_year <= 9999.
Proof.
  split; [vm_compute; reflexivity|].
  apply (parsed_years_bounded (lit "(c) 2007 - 2019 Intel")
           (Range [2007; 2019])).
  vm_compute. reflexivity.
Defined.

(** X7: parsing answers "no match" exactly for the texts without four
    decimal digits in a row, and never raises. *)
Theorem no_year_iff_no_four_digits (s : str) :
  (exists r, get_copyright_year_or_range s = Return r)
  /\ (get_copyright_year_or_range s = Return None <-> ~ has_four_digits s).
Proof.
  destruct (year_or_range_total s) as (r & Hr & Hsome & _).
  split; [eauto|]. split.
  - intros Hnone (pre & d & post & -> & [Hd4 Hd]).
    rewrite Hr in Hnone. injection Hnone as ->.
    apply Hsome; [|reflexivity]. now apply year_re_found.
  - intros Hno. rewrite Hr. f_equal. destruct r as [y|]; [|reflexivity].
    elim Hno. unfold get_copyright_year_or_range in Hr.
    destruct (search year_re s) as [m|] eqn:E; [|discriminate].
    apply search_from_sound in E as (pre & post & Hs & Hm & _).
    apply matches_year_re in Hm as (d & Hd & Hshape).
    destruct Hshape as [Hg|(a & sp & sp' & _ & _ & _ & Hg)];
      rewrite Hg in Hs.
    + now exists pre, d, post.
    + exists (pre ++ (a ++ sp) ++ "-"%char :: sp'), d, post.
      split; [|exact Hd]. rewrite Hs.
      repeat (rewrite <- ?app_assoc; simpl). reflexivity.
Qed.
Lemma rep_exact {A : Type} (p : ascii -> bool) (d s : str)
  (k : str -> option A) :
  forallb p d = true -> rep (List.length d) p (d ++ s) k = k s.
Proof.
  induction d as [|c d IH]; simpl; [reflexivity|].
  intros H. apply andb_true_iff in H as [Hc H]. now rewrite Hc, IH.
Qed.

Lemma rep_four {A : Type} (d s : str) (k : str -> option A) :
  four_digits d -> rep 4 is_digit (d ++ s) k = k s.
Proof. intros [H4 Hd]. rewrite <- H4. now apply rep_exact. Qed.

Lemma run_year_single (d post : str) :
  four_digits d ->
  startswith post (lit "-") = false ->
  startswith post (lit " -") = false ->
  run year_re (d ++ post) (fun rest => Some rest) = Some post.
Proof.
  intros Hd H1 H2. unfold year_re. cbn [run]. rewrite !rep_four by assumption.
  cbn [lit list_ascii_of_string startswith] in H1, H2.
  destruct post as [|c post]; [reflexivity|].
  rewrite andb_true_r in H1. rewrite H1.
  destruct (Ascii.eqb " " c); [|reflexivity].
  destruct post as [|c2 post]; [reflexivity|].
  cbn [andb] in H2. rewrite andb_true_r in H2. now rewrite H2.
Qed.

Lemma digit_not_blank (c : ascii) :
  is_digit c = true -> Ascii.eqb " " c = false.
Proof.
  destruct c as [[|] [|] [|] [|] [|] [|] [|] [|]];
    vm_compute; congruence.
Qed.

Lemma run_year_range (a sp sp' b post : str) :
  four_digits a -> opt_space sp -> opt_space sp' -> four_digits b ->
  run year_re ((a ++ sp) ++ "-"%char :: (sp' ++ b) ++ post)
    (fun rest => Some rest)
  = Some post.
Proof.
  intros Ha Hsp Hsp' Hb. unfold year_re. cbn [run].
  rewrite <- !app_assoc. rewrite rep_four by assumption.
  assert (Htail :
            match
              match b ++ post with
              | [] => None
              | c' :: s' =>
                  if Ascii.eqb " " c'
                  then rep 4 is_digit s' (fun rest => Some rest)
                  else None
              end
            with
            | Some x => Some x
            | None => rep 4 is_digit (b ++ post) (fun rest => Some rest)
            end = Some post).
  { rewrite rep_four by assumption.
    destruct Hb as [Hb4 Hb]. destruct b as [|c b]; [discriminate|].
    cbn [app]. simpl in Hb. apply andb_true_iff in Hb as [Hc _].
    now rewrite (digit_not_blank _ Hc). }
  destruct Hsp as [->| ->], Hsp' as [->| ->]; cbn [app];
    rewrite ?Ascii.eqb_refl; change (Ascii.eqb " " "-") with false;
    cbn [app]; rewrite ?Ascii.eqb_refl; cbn [app];
    rewrite ?Htail, ?rep_four by assumption; reflexivity.
Qed.

Lemma run_year_nondigit {A : Type} (c : ascii) (s : str)
  (k : str -> option A) :
  is_digit c = false -> run year_re (c :: s) k = None.
Proof. intros H. unfold year_re. cbn [run rep]. now rewrite H. Qed.

Lemma search_from_here (r : regex) (pos : nat) (s m rest : str) :
  run r s (fun rest => Some rest) = Some rest ->
  s = m ++ rest ->
  search_from r pos s = Some {| m_start := pos; group0 := m |}.
Proof.
  intros Hrun Hs. destruct s; cbn [search_from]; rewrite Hrun;
    now rewrite (consumed_app _ _ _ Hs).
Qed.

(** [re.search] passes over a text without digits. *)
Lemma search_year_skip (pre t : str) : forall pos,
  no_digit pre = true ->
  search_from year_re pos (pre ++ t)
  = search_from year_re (pos + List.length pre) t.
Proof.
  unfold no_digit.
  induction pre as [|c pre IH]; intros pos H;
    cbn [app search_from List.length forallb] in H |- *.
  - now rewrite Nat.add_0_r.
  - apply andb_true_iff in H as [Hc H]. apply negb_true_iff in Hc.
    rewrite (run_year_nondigit c _ _ Hc), IH by assumption.
    f_equal. lia.
Qed.

Lemma search_year_single (pre d post : str) :
  no_digit pre = true ->
  four_digits d ->
  startswith post (lit "-") = false ->
  startswith post (lit " -") = false ->
  search year_re (pre ++ d ++ post)
  = Some {| m_start := List.length pre; group0 := d |}.
Proof.
  intros Hpre Hd H1 H2. unfold search.
  rewrite search_year_skip by assumption.
  apply (search_from_here _ _ _ _ post); [|reflexivity].
  now apply run_year_single.
Qed.

Lemma years_of_single (d : str) :
  four_digits d ->
  (years <- map_result (fun year => of_option ValueError (PyStr.int year))
              (split d "-") ;;
   if (List.length years =? 2)%nat then Return (Some (Range years))
   else year0 <- of_option IndexError (nth_error years 0) ;;
        Return (Some (Year year0)))
  = Return (Some (Year (decimal d))).
Proof.
  intros [Hd4 Hd]. unfold split.
  rewrite split_aux_no_sep by now apply digits_no_hyphen.
  pose proof (int_padded_value [] d [] eq_refl eq_refl Hd
                (four_digits_nonempty _ Hd4)) as Hz.
  simpl in Hz. rewrite app_nil_r in Hz.
  cbn [rev app map_result bind of_option]. rewrite Hz. reflexivity.
Qed.

(** X8: the year read is the first one of the line: when no digit
    comes before a group of four digits and no hyphen (with or without
    a space before it) follows the group, the parse is that single
    year, whatever else the line holds after it. *)
Theorem first_year_is_parsed (pre d post : str) :
  no_digit pre = true ->
  four_digits d ->
  startswith post (lit "-") = false ->
  startswith post (lit " -") = false ->
  get_copyright_year_or_range (pre ++ d ++ post)
  = Return (Some (Year (decimal d))).
Proof.
  intros Hpre Hd H1 H2. unfold get_copyright_year_or_range.
  rewrite search_year_single by assumption. cbn [group0].
  now apply years_of_single.
Qed.

Lemma first_year_is_parsed_witness :
  no_digit (lit "// Copyright (c) ") = true
  /\ four_digits (lit "2019")
  /\ startswith (lit " Intel, 1999-2000") (lit "-") = false
  /\ startswith (lit " Intel, 1999-2000") (lit " -") = false
  /\ get_copyright_year_or_range
       (lit "// Copyright (c) " ++ lit "2019" ++ lit " Intel, 1999-2000")
     = Return (Some (Year (decimal (lit "2019")))).
Proof.
  assert (H4 : four_digits (lit "2019")) by (split; reflexivity).
  split; [reflexivity|]. split; [exact H4|].
  split; [reflexivity|]. split; [reflexivity|].
  apply (first_year_is_parsed (lit "// Copyright (c) ") (lit "2019")
           (lit " Intel, 1999-2000"));
    [reflexivity|exact H4|reflexivity|reflexivity].
Defined.

Lemma search_year_range (pre a sp sp' b post : str) :
  no_digit pre = true ->
  four_digits a -> opt_space sp -> opt_space sp' -> four_digits b ->
  search year_re (pre ++ (a ++ sp) ++ "-"%char :: (sp' ++ b) ++ post)
  = Some {| m_start := List.length pre;
            group0 := (a ++ sp) ++ "-"%char :: sp' ++ b |}.
Proof.
  intros Hpre Ha Hsp Hsp' Hb. unfold search.
  rewrite search_year_skip by assumption.
  apply (search_from_here _ _ _ _ post).
  - now apply run_year_range.
  - repeat (rewrite <- ?app_assoc; simpl). reflexivity.
Qed.

Lemma years_of_range (a sp sp' b : str) :
  four_digits a -> opt_space sp -> opt_space sp' -> four_digits b ->
  (years <- map_result (fun year => of_option ValueError (PyStr.int year))
              (split ((a ++ sp) ++ "-"%char :: sp' ++ b) "-") ;;
   if (List.length years =? 2)%nat then Return (Some (Range years))
   else year0 <- of_option IndexError (nth_error years 0) ;;
        Return (Some (Year year0)))
  = Return (Some (Range [decimal a; decimal b])).
Proof.
  intros [Ha4 Ha] Hsp Hsp' [Hb4 Hb].
  apply opt_space_facts in Hsp as [Hsp1 Hsp2].
  apply opt_space_facts in Hsp' as [Hsp'1 Hsp'2].
  assert (H1 : contains_char "-" (a ++ sp) = false).
  { now rewrite contains_char_app, (digits_no_hyphen a Ha), Hsp2. }
  assert (H2 : contains_char "-" (sp' ++ b) = false).
  { now rewrite contains_char_app, (digits_no_hyphen b Hb), Hsp'2. }
  unfold split.
  rewrite (split_aux_at_sep _ _ _ _ H1), (split_aux_no_sep _ _ _ H2).
  pose proof (int_padded_value [] a sp eq_refl Hsp1 Ha
                (four_digits_nonempty _ Ha4)) as Hz1.
  pose proof (int_padded_value sp' b [] Hsp'1 eq_refl Hb
                (four_digits_nonempty _ Hb4)) as Hz2.
  simpl in Hz1. rewrite app_nil_r in Hz2.
  cbn [rev app map_result bind of_option]. rewrite Hz1.
  cbn [rev app map_result bind of_option]. rewrite Hz2. reflexivity.
Qed.

(** X9: a first group of four digits followed by a hyphen, with at
    most one space on either side of it, and four more digits is
    parsed as the range of the two years. *)
Theorem first_range_is_parsed (pre a sp sp' b post : str) :
  no_digit pre = true ->
  four_digits a -> opt_space sp -> opt_space sp' -> four_digits b ->
  get_copyright_year_or_range
    (pre ++ (a ++ sp) ++ "-"%char :: (sp' ++ b) ++ post)
  = Return (Some (Range [decimal a; decimal b])).
Proof.
  intros Hpre Ha Hsp Hsp' Hb. unfold get_copyright_year_or_range.
  rewrite search_year_range by assumption. cbn [group0].
  now apply years_of_range.
Qed.

Lemma first_range_is_parsed_witness :
  no_digit (lit " * Copyright (C) ") = true
  /\ four_digits (lit "2014") /\ opt_space (lit " ") /\ opt_space []
  /\ four_digits (lit "2019")
  /\ get_copyright_year_or_range
       (lit " * Copyright (C) " ++ (lit "2014" ++ lit " ")
        ++ "-"%char :: ([] ++ lit "2019") ++ lit " Intel Corporation")
     = Return (Some (Range [decimal (lit "2014"); decimal (lit "2019")])).
Proof.
  assert (Ha : four_digits (lit "2014")) by (split; reflexivity).
  assert (Hb : four_digits (lit "2019")) by (split; reflexivity).
  assert (Hsp : opt_space (lit " ")) by (right; reflexivity).
  assert (Hsp' : opt_space []) by (left; reflexivity).
  split; [reflexivity|]. split; [exact Ha|]. split; [exact Hsp|].
  split; [exact Hsp'|]. split; [exact Hb|].
  apply (first_range_is_parsed (lit " * Copyright (C) ") (lit "2014")
           (lit " ") [] (lit "2019") (lit " Intel Corporation"));
    [reflexivity|exact Ha|exact Hsp|exact Hsp'|exact Hb].
Defined.

(** ** More on the per-file check *)

(** The check as a function of the block alone: a verdict, and for a
    rejected block one message. *)
Lemma check_uniform (tested_strings : list str) :
  exists (ok : bool) (message : str),
    forall self : CopyrightChecker,
      is_copyright_correct self tested_strings
      = Return (ok, if ok then self else append_details self message).
Proof.
  unfold is_copyright_correct.
  destruct (get_copyright_strings tested_strings) as [|c cs] eqn:Ecs.
  { exists false, msg_missing. reflexivity. }
  destruct (find_intel [] (c :: cs)) as [intel|] eqn:Ef.
  2:{ exists false, (msg_too_many (c :: cs)). reflexivity. }
  destruct (truthy intel) eqn:Et; cbn [negb].
  2:{ exists true, []. reflexivity. }
  assert (Hc : is_copyright_string intel = true).
  { apply find_intel_in in Ef as [<-|Hin]; [discriminate|].
    rewrite <- Ecs in Hin. unfold get_copyright_strings in Hin.
    now apply filter_In in Hin. }
  destruct (copyright_string_parses _ Hc) as (y & -> & Hlen).
  cbn [bind]. destruct y as [year|range].
  - destruct (negb (year =? YEAR)).
    + exists false, (msg_year intel). reflexivity.
    + exists true, []. reflexivity.
  - destruct (Hlen _ eq_refl) as (A & B & ->). cbn [unpack2 bind].
    destruct (negb (B =? YEAR) || (B <=? A)).
    + exists false, (msg_range intel). reflexivity.
    + exists true, []. reflexivity.
Qed.

Lemma check_as_function (self : CopyrightChecker)
  (tested_strings : list str) :
  is_copyright_correct self tested_strings
  = Return (verdict tested_strings,
            if verdict tested_strings then self
            else append_details self (complaint tested_strings)).
Proof.
  destruct (check_uniform tested_strings) as (ok & message & H).
  unfold verdict, complaint. rewrite (H (init [] [] [])), (H self).
  destruct ok; reflexivity.
Qed.

(** X10: the check never raises and its answer depends on the block
    only, not on what the checker found in earlier files; a block that
    passes leaves the checker as it was, and a block that fails appends
    exactly two details, the file name followed by a colon and one
    message. *)
Theorem check_depends_on_block_only (self : CopyrightChecker)
  (tested_strings : list str) :
  exists self',
    is_copyright_correct self tested_strings
    = Return (verdict tested_strings, self')
    /\ (verdict tested_strings = true -> self' = self)
    /\ (verdict tested_strings = false ->
        details self'
        = details self ++ [src_file self ++ lit ":";
                           complaint tested_strings]
        /\ src_file self' = src_file self
        /\ repo_path self' = repo_path self
        /\ commit_id self' = commit_id self
        /\ report_path self' = report_path self).
Proof.
  rewrite check_as_function. eexists. split; [reflexivity|].
  destruct (verdict tested_strings); split; intros H;
    try discriminate; [reflexivity|].
  repeat split; reflexivity.
Qed.

Lemma verdict_cases (tested_strings : list str) :
  (get_copyright_strings tested_strings = [] /\
   verdict tested_strings = false)
  \/ (get_copyright_strings tested_strings <> [] /\
      filter is_intel (get_copyright_strings tested_strings) = [] /\
      verdict tested_strings = true)
  \/ (exists n,
        filter is_intel (get_copyright_strings tested_strings) = [n] /\
        verdict tested_strings = verdict [n])
  \/ ((2 <= List.length
              (filter is_intel (get_copyright_strings tested_strings)))%nat /\
      verdict tested_strings = false).
Proof.
  destruct (filter is_intel (get_copyright_strings tested_strings))
    as [|n [|m more]] eqn:F.
  - destruct (get_copyright_strings tested_strings) as [|c cs] eqn:Ecs.
    + left. split; [reflexivity|]. unfold verdict, is_copyright_correct.
      now rewrite Ecs.
    + right. left. split; [discriminate|]. split; [reflexivity|].
      unfold verdict, is_copyright_correct.
      now rewrite Ecs, (find_intel_none_intel _ _ F).
  - right. right. left. exists n. split; [reflexivity|].
    destruct (single_notice_selected _ _ F) as (Hne & Hf & Ht & Hc).
    destruct (copyright_string_parses _ Hc) as (y & Hy & _).
    assert (F1 : filter is_intel (get_copyright_strings [n]) = [n]).
    { assert (Hi : In n (filter is_intel
                           (get_copyright_strings tested_strings)))
        by (rewrite F; now left).
      apply filter_In in Hi as [_ Hi].
      unfold get_copyright_strings. cbn [filter]. rewrite Hc.
      cbn [filter]. now rewrite Hi. }
    destruct (single_notice_selected _ _ F1) as (Hne1 & Hf1 & _ & _).
    unfold verdict.
    rewrite (check_with_notice _ _ _ _ Hne Hf Ht Hy).
    rewrite (check_with_notice _ _ _ _ Hne1 Hf1 Ht Hy).
    reflexivity.
  - right. right. right. split; [simpl; lia|].
    destruct (get_copyright_strings tested_strings) as [|c cs] eqn:Ecs;
      [discriminate|].
    unfold verdict, is_copyright_correct.
    now rewrite Ecs, (find_intel_first _ _ _ F).
Qed.

(** X11: the verdict does not depend on the order of the lines of the
    block. *)
Theorem verdict_order_independent (block block' : list str) :
  Permutation block block' -> verdict block = verdict block'.
Proof.
  intros Hperm.
  assert (Hcs : Permutation (get_copyright_strings block)
                  (get_copyright_strings block')).
  { unfold get_copyright_strings.
    induction Hperm; cbn [filter];
      repeat match goal with
             | |- context [is_copyright_string ?x] =>
                 destruct (is_copyright_string x)
             end; eauto using Permutation. }
  assert (Hi : Permutation (filter is_intel (get_copyright_strings block))
                 (filter is_intel (get_copyright_strings block'))).
  { induction Hcs; cbn [filter];
      repeat match goal with
             | |- context [is_intel ?x] => destruct (is_intel x)
             end; eauto using Permutation. }
  pose proof (Permutation_length Hi) as Hlen.
  destruct (verdict_cases block)
    as [[E ->]|[(Hne & E & ->)|[(n & E & ->)|[E ->]]]];
    destruct (verdict_cases block')
      as [[E' ->]|[(Hne' & E' & ->)|[(n' & E' & ->)|[E' ->]]]];
    try reflexivity;
    try (rewrite E, E' in Hi; apply Permutation_length_1 in Hi;
         now subst n');
    exfalso.
  all: try (rewrite E in Hcs; apply Permutation_nil in Hcs; congruence).
  all: try (rewrite E' in Hcs; apply Permutation_sym, Permutation_nil in Hcs;
            congruence).
  all: try (rewrite E in Hlen; simpl in Hlen; lia).
  all: try (rewrite E' in Hlen; simpl in Hlen; lia).
  all: try (rewrite E, E' in Hlen; simpl in Hlen; lia).
Qed.

Lemma verdict_order_independent_witness :
  Permutation
    [lit "// Copyright (c) 2019 Intel Corporation"; lit "// (c) 2001 Copyright"]
    [lit "// (c) 2001 Copyright"; lit "// Copyright (c) 2019 Intel Corporation"]
  /\ verdict [lit "// Copyright (c) 2019 Intel Corporation";
              lit "// (c) 2001 Copyright"]
     = verdict [lit "// (c) 2001 Copyright";
                lit "// Copyright (c) 2019 Intel Corporation"].
Proof.
  split; [apply perm_swap|].
  apply (verdict_order_independent
           [lit "// Copyright (c) 2019 Intel Corporation";
            lit "// (c) 2001 Copyright"]
           [lit "// (c) 2001 Copyright";
            lit "// Copyright (c) 2019 Intel Corporation"]).
  apply perm_swap.
Defined.

(** A block none of whose lines has four digits in a row has no
    copyright string. *)
Lemma no_year_no_copyright_string (tested_strings : list str) :
  (forall line, In line tested_strings -> ~ has_four_digits line) ->
  get_copyright_strings tested_strings = [].
Proof.
  intros Hno. unfold get_copyright_strings.
  induction tested_strings as [|l ls IH]; [reflexivity|]. cbn [filter].
  destruct (is_copyright_string l) eqn:E.
  - exfalso. apply (Hno l); [now left|].
    apply is_copyright_string_iff in E
      as (pre & first & w & gap & d & post & -> & _ & _ & _ & Hd4 & Hd).
    exists (pre ++ first :: lit "opyright" ++ w ++ gap), d, post.
    split; [|now split].
    repeat (rewrite <- ?app_assoc; simpl). reflexivity.
  - apply IH. intros line Hin. apply Hno. now right.
Qed.

Lemma no_four_digits_short (s : str) :
  (List.length s < 4)%nat -> ~ has_four_digits s.
Proof.
  intros Hlen (pre & d & post & -> & Hd4 & _).
  rewrite !length_app in Hlen. lia.
Qed.

Lemma digits_in_class (d : str) :
  forallb is_digit d = true -> forallb digit_space_hyphen d = true.
Proof.
  induction d as [|c d IH]; cbn [forallb]; [reflexivity|].
  intros H. apply andb_true_iff in H as [Hc H].
  unfold digit_space_hyphen at 1. now rewrite Hc, IH.
Qed.

(** A line made after the format the checker advertises is the one
    organizational notice of the block it forms. *)
Lemma template_selected (lead d more tail : str) :
  four_digits d ->
  forallb digit_space_hyphen (d ++ more) = true ->
  let n := lead ++ lit "Copyright (c) " ++ (d ++ more)
           ++ lit " Intel Corporation" ++ tail in
  filter is_intel (get_copyright_strings [n]) = [n].
Proof.
  intros [Hd4 Hd] Hclass n.
  assert (Hc : is_copyright_string n = true).
  { apply is_copyright_string_iff.
    exists lead, "C"%char, [" "%char], (lit "(c) "), d,
      (more ++ lit " Intel Corporation" ++ tail).
    repeat split; try assumption.
    - unfold n. rewrite <- !app_assoc. reflexivity.
    - now left.
    - right. exists " "%char. now split. }
  assert (Hi : is_intel n = true).
  { unfold is_intel, is_intel_copyright. apply search_found_iff.
    exists lead,
      (lit "Copyright (c) " ++ (d ++ more) ++ lit " Intel Corporation"),
      tail.
    split; [unfold n; now rewrite <- !app_assoc|].
    apply matches_intel_re.
    exists [], [" "%char], "c"%char, [" "%char], (d ++ more), [" "%char],
      [" "%char], [].
    repeat split; try assumption; try reflexivity. now left. }
  unfold get_copyright_strings. cbn [filter]. rewrite Hc.
  cbn [filter]. now rewrite Hi.
Qed.

Lemma no_digit_lead (lead : str) :
  no_digit lead = true -> no_digit (lead ++ lit "Copyright (c) ") = true.
Proof.
  unfold no_digit. intros H. rewrite forallb_app, H. reflexivity.
Qed.

(** What the check returns on a line in the advertised format with a
    single year. *)
Lemma single_year_template (self : CopyrightChecker)
  (lead d tail : str) :
  no_digit lead = true ->
  four_digits d ->
  let n := lead ++ lit "Copyright (c) " ++ d ++ lit " Intel Corporation"
           ++ tail in
  is_copyright_correct self [n]
  = if decimal d =? 2019 then Return (true, self)
    else Return (false, append_details self (msg_year n)).
Proof.
  intros Hlead Hd n.
  assert (Hsel : filter is_intel (get_copyright_strings [n]) = [n]).
  { pose proof (template_selected lead d [] tail Hd) as H.
    rewrite app_nil_r in H. apply H.
    apply digits_in_class, Hd. }
  destruct (single_notice_selected _ _ Hsel) as (Hne & Hf & Ht & _).
  assert (Hy : get_copyright_year_or_range n
               = Return (Some (Year (decimal d)))).
  { unfold n, get_copyright_year_or_range. rewrite app_assoc.
    rewrite search_year_single;
      [|now apply no_digit_lead|assumption|reflexivity|reflexivity].
    cbn [group0]. now apply years_of_single. }
  rewrite (check_with_notice self _ _ _ Hne Hf Ht Hy).
  change YEAR with 2019. now destruct (decimal d =? 2019).
Qed.

(** What the check returns on a line in the advertised format with a
    range. *)
Lemma range_template (self : CopyrightChecker) (lead a b tail : str) :
  no_digit lead = true ->
  four_digits a -> four_digits b ->
  let n := lead ++ lit "Copyright (c) " ++ (a ++ "-"%char :: b)
           ++ lit " Intel Corporation" ++ tail in
  is_copyright_correct self [n]
  = if (decimal b =? 2019) && (decimal a <? decimal b)
    then Return (true, self)
    else Return (false, append_details self (msg_range n)).
Proof.
  intros Hlead Ha Hb n.
  assert (Hsel : filter is_intel (get_copyright_strings [n]) = [n]).
  { apply (template_selected lead a ("-"%char :: b) tail Ha).
    rewrite forallb_app. cbn [forallb].
    rewrite !digits_in_class by (apply Ha || apply Hb). reflexivity. }
  destruct (single_notice_selected _ _ Hsel) as (Hne & Hf & Ht & _).
  assert (Hy : get_copyright_year_or_range n
               = Return (Some (Range [decimal a; decimal b]))).
  { pose proof (search_year_range (lead ++ lit "Copyright (c) ") a [] [] b
                  (lit " Intel Corporation" ++ tail)
                  (no_digit_lead _ Hlead) Ha (or_introl eq_refl)
                  (or_introl eq_refl) Hb) as Hs.
    pose proof (years_of_range a [] [] b Ha (or_introl eq_refl)
                  (or_introl eq_refl) Hb) as Hv.
    rewrite app_nil_r in Hs, Hv. cbn [app] in Hs, Hv.
    unfold n, get_copyright_year_or_range.
    replace (lead ++ lit "Copyright (c) " ++ (a ++ "-"%char :: b)
             ++ lit " Intel Corporation" ++ tail)
      with ((lead ++ lit "Copyright (c) ") ++ a ++ "-"%char :: b
            ++ lit " Intel Corporation" ++ tail)
      by (repeat (rewrite <- ?app_assoc; simpl); reflexivity).
    rewrite Hs. cbn [group0]. exact Hv. }
  rewrite (check_with_notice self _ _ _ Hne Hf Ht Hy).
  cbn [unpack2 bind fst snd]. change YEAR with 2019.
  destruct (decimal b =? 2019); cbn [negb orb andb]; [|reflexivity].
  rewrite Z.leb_antisym. now destruct (decimal a <? decimal b).
Qed.

Lemma find_negative_not_occurs (sub s : str) :
  find s sub 0 < 0 -> ~ occurs sub s.
Proof.
  rewrite find_from_start. intros Hneg Hocc.
  apply (find_at_occurs sub s 0) in Hocc; lia.
Qed.

Lemma stops_at_first_code_line_witness :
  loop initial [lit "// license"; lit ""]
  = Continue {| comments := [lit "// license"]; multiline_comment := false |}
  /\ strip (lit "#include <a.h>") <> []
  /\ ~ occurs (lit "/*") (strip (lit "#include <a.h>"))
  /\ ~ occurs (lit "//") (strip (lit "#include <a.h>"))
  /\ get_leading_comments
       ([lit "// license"; lit ""] ++ lit "#include <a.h>"
        :: [lit "// not part of the header"])
     = get_leading_comments [lit "// license"; lit ""].
Proof.
  assert (H1 : loop initial [lit "// license"; lit ""]
               = Continue {| comments := [lit "// license"];
                             multiline_comment := false |})
    by (vm_compute; reflexivity).
  assert (H2 : strip (lit "#include <a.h>") <> [])
    by (vm_compute; discriminate).
  assert (H3 : ~ occurs (lit "/*") (strip (lit "#include <a.h>")))
    by (apply find_negative_not_occurs; vm_compute; reflexivity).
  assert (H4 : ~ occurs (lit "//") (strip (lit "#include <a.h>")))
    by (apply find_negative_not_occurs; vm_compute; reflexivity).
  split; [exact H1|]. split; [exact H2|]. split; [exact H3|].
  split; [exact H4|].
  exact (stops_at_first_code_line [lit "// license"; lit ""]
           (lit "#include <a.h>") [lit "// not part of the header"]
           _ H1 eq_refl H2 H3 H4).
Defined.

Lemma block_comment_taken_whole_witness :
  multiline_comment initial = false
  /\ 0 <= find (strip (lit "/* Copyright")) (lit "/*") 0
  /\ find (strip (lit "/* Copyright")) (lit "*/")
       (find (strip (lit "/* Copyright")) (lit "/*") 0) = -1
  /\ Forall (fun l => find (strip l) (lit "*/") 0 = -1)
       [lit " * int x;"; lit ""]
  /\ occurs (lit "*/") (strip (lit " end */ int y;"))
  /\ loop initial
       (lit "/* Copyright" :: [lit " * int x;"; lit ""]
        ++ [lit " end */ int y;"])
     = Continue
         {| comments := comments initial ++ strip (lit "/* Copyright")
                        :: filter truthy
                             (map strip [lit " * int x;"; lit ""])
                        ++ [strip (lit " end */ int y;")];
            multiline_comment := false |}.
Proof.
  assert (H2 : 0 <= find (strip (lit "/* Copyright")) (lit "/*") 0)
    by (vm_compute; congruence).
  assert (H3 : find (strip (lit "/* Copyright")) (lit "*/")
                 (find (strip (lit "/* Copyright")) (lit "/*") 0) = -1)
    by (vm_compute; reflexivity).
  assert (H4 : Forall (fun l => find (strip l) (lit "*/") 0 = -1)
                 [lit " * int x;"; lit ""])
    by (repeat constructor).
  assert (H5 : occurs (lit "*/") (strip (lit " end */ int y;"))).
  { exists (lit "end "), (lit " int y;"). vm_compute. reflexivity. }
  split; [reflexivity|]. split; [exact H2|]. split; [exact H3|].
  split; [exact H4|]. split; [exact H5|].
  exact (block_comment_taken_whole initial (lit "/* Copyright")
           [lit " * int x;"; lit ""] (lit " end */ int y;")
           eq_refl H2 H3 H4 H5).
Defined.

(** ** More on the author check *)

(** X15: the author check logs six records, at INFO level unless said
    otherwise: the three of [_get_author_info] (the revision, the
    name, the email), then the name verdict and the email verdict,
    each at ERROR level when its test fails, then the summary, at
    ERROR level when a test failed. Both tests always run: a wrong
    name does not hide a wrong email. The check passes exactly when no
    record is at ERROR level. *)
Theorem check_logs_both_tests (revision author email : str) :
  let name_ok := negb (CheckAuthor.contains
                         CheckAuthor.incorrect_author_names author) in
  let mail_ok := negb (endswith email
                         CheckAuthor.incorrect_email_endswith) in
  snd (CheckAuthor.check revision author email)
  = [(CheckAuthor.INFO,
      lit "Getting author information for " ++ revision ++ lit " revision.");
     (CheckAuthor.INFO, lit "Author name: " ++ author);
     (CheckAuthor.INFO, lit "Author email: " ++ email);
     (if name_ok
      then (CheckAuthor.INFO, lit "Author name is correct")
      else (CheckAuthor.ERROR,
            lit "Author name can not be root, mediasdk."));
     (if mail_ok
      then (CheckAuthor.INFO, lit "Author email is correct")
      else (CheckAuthor.ERROR,
            lit "Author email can not ends in @localhost.localdomain."));
     (if name_ok && mail_ok
      then (CheckAuthor.INFO, lit "All checks PASSED")
      else (CheckAuthor.ERROR, lit "Some checks FAILED"))]
  /\ (fst (CheckAuthor.check revision author email) = true <->
      Forall (fun record => fst record = CheckAuthor.INFO)
        (snd (CheckAuthor.check revision author email))).
Proof.
  intros name_ok mail_ok.
  unfold CheckAuthor.check, CheckAuthor._get_author_info,
    CheckAuthor.check_author, CheckAuthor.check_email.
  fold name_ok mail_ok.
  destruct name_ok, mail_ok; cbn [fst snd app andb];
    (split; [reflexivity|]);
    split; intros H; try discriminate;
    try (repeat constructor);
    repeat match goal with
           | H : Forall _ (_ :: _) |- _ => inversion H; clear H; subst
           end;
    cbn [fst] in *; discriminate.
Qed.

(** ** Verdicts and the details recorded with them *)

(** The outcomes of the check: the missing-copyright failure when the
    block has no copyright string, otherwise a pass or a failure with
    another message. *)
Lemma check_outcomes (self : CopyrightChecker) (tested_strings : list str) :
  (get_copyright_strings tested_strings = [] /\
   is_copyright_correct self tested_strings
   = Return (false, append_details self msg_missing))
  \/ (get_copyright_strings tested_strings <> [] /\
      (is_copyright_correct self tested_strings = Return (true, self)
       \/ exists m,
            m <> msg_missing /\
            is_copyright_correct self tested_strings
            = Return (false, append_details self m))).
Proof.
  unfold is_copyright_correct.
  destruct (get_copyright_strings tested_strings) as [|c cs] eqn:Ecs.
  { left. split; reflexivity. }
  right. split; [discriminate|].
  destruct (find_intel [] (c :: cs)) as [intel|] eqn:Ef.
  2:{ right. exists (msg_too_many (c :: cs)).
      split; [discriminate|reflexivity]. }
  destruct (truthy intel) eqn:Et; cbn [negb]; [|now left].
  assert (Hc : is_copyright_string intel = true).
  { apply find_intel_in in Ef as [<-|Hin]; [discriminate|].
    rewrite <- Ecs in Hin. unfold get_copyright_strings in Hin.
    now apply filter_In in Hin. }
  destruct (copyright_string_parses _ Hc) as (y & -> & Hlen).
  cbn [bind]. destruct y as [year|range].
  - destruct (negb (year =? YEAR)); [right|now left].
    exists (msg_year intel). split; [discriminate|reflexivity].
  - destruct (Hlen _ eq_refl) as (A & B & ->). cbn [unpack2 bind].
    destruct (negb (B =? YEAR) || (B <=? A)); [right|now left].
    exists (msg_range intel). split; [discriminate|reflexivity].
Qed.



(** C6: a block with copyright strings none of which is organizational
    passes and records nothing; a block without any copyright string
    fails and records the file name and "Missing copyright.", and only
    such a block does. *)
Theorem third_party_or_missing (self : CopyrightChecker)
  (tested_strings : list str) :
  (get_copyright_strings tested_strings <> [] ->
   filter is_intel (get_copyright_strings tested_strings) = [] ->
   is_copyright_correct self tested_strings = Return (true, self))
  /\ (get_copyright_strings tested_strings = [] <->
      exists self',
        is_copyright_correct self tested_strings = Return (false, self')
        /\ details self'
           = details self
             ++ [src_file self ++ lit ":"; TAB :: lit "Missing copyright."]).
Proof.
  split.
  - intros Hne Hnone. unfold is_copyright_correct.
    destruct (get_copyright_strings tested_strings) as [|c cs];
      [congruence|].
    rewrite (find_intel_none_intel _ _ Hnone). reflexivity.
  - destruct (check_outcomes self tested_strings)
      as [[Hcs Hr]|[Hcs [Hr|(m & Hm & Hr)]]]; rewrite Hr; split.
    + intros _. eexists. split; reflexivity.
    + intros _. exact Hcs.
    + intros E. now elim Hcs.
    + intros (self' & E & _). discriminate.
    + intros E. now elim Hcs.
    + intros (self' & E & Hd). exfalso. injection E as <-.
      apply (details_differ self m msg_missing); assumption.
Qed.

Lemma third_party_or_missing_witness :
  get_copyright_strings [lit "// no notice here"] = []
  /\ exists self',
       is_copyright_correct (init [] [] []) [lit "// no notice here"]
       = Return (false, self')
       /\ details self'
          = details (init [] [] [])
            ++ [src_file (init [] [] []) ++ lit ":";
                TAB :: lit "Missing copyright."].
Proof.
  split; [reflexivity|].
  apply (proj2 (third_party_or_missing (init [] [] [])
                  [lit "// no notice here"])).
  reflexivity.
Defined.

Lemma four_digits_found (s : str) :
  has_four_digits s -> search year_re s <> None.
Proof.
  intros (pre & d & post & -> & [H4 Hd]). now apply year_re_found.
Qed.

(** X12: a line counts as a copyright string only if it has four
    digits in a row; a block without such a line, even one that names
    Intel Corporation, fails and records the file name and "Missing
    copyright.". *)
Theorem no_year_means_missing (self : CopyrightChecker)
  (tested_strings : list str) :
  (forall line, In line tested_strings -> ~ has_four_digits line) ->
  exists self',
    is_copyright_correct self tested_strings = Return (false, self')
    /\ details self'
       = details self
         ++ [src_file self ++ lit ":"; TAB :: lit "Missing copyright."].
Proof.
  intros Hno. unfold is_copyright_correct.
  rewrite (no_year_no_copyright_string _ Hno).
  eexists. split; reflexivity.
Qed.

Lemma no_year_means_missing_witness :
  (forall line,
     In line [lit "// Copyright (c) Intel Corporation"; lit "/**"] ->
     ~ has_four_digits line)
  /\ exists self',
       is_copyright_correct (init [] [] [])
         [lit "// Copyright (c) Intel Corporation"; lit "/**"]
       = Return (false, self')
       /\ details self'
          = details (init [] [] [])
            ++ [src_file (init [] [] []) ++ lit ":";
                TAB :: lit "Missing copyright."].
Proof.
  assert (H : forall line,
             In line [lit "// Copyright (c) Intel Corporation"; lit "/**"] ->
             ~ has_four_digits line).
  { intros line Hin Hfour. apply four_digits_found in Hfour.
    apply Hfour. destruct Hin as [<-|[<-|[]]]; vm_compute; reflexivity. }
  split; [exact H|].
  exact (no_year_means_missing (init [] [] [])
           [lit "// Copyright (c) Intel Corporation"; lit "/**"] H).
Defined.

(** X13: a line in the format the checker advertises, "Copyright (c)
    YEAR Intel Corporation" after a comment marker without digits,
    passes exactly when YEAR is 2019 and then records nothing;
    otherwise it fails and records the file name and the
    incorrect-year message followed by the line. *)
Theorem advertised_single_year (self : CopyrightChecker)
  (lead d tail : str) :
  no_digit lead = true ->
  four_digits d ->
  let n := lead ++ lit "Copyright (c) " ++ d ++ lit " Intel Corporation"
           ++ tail in
  exists self',
    is_copyright_correct self [n] = Return (decimal d =? 2019, self')
    /\ (decimal d = 2019 -> self' = self)
    /\ (decimal d <> 2019 ->
        details self'
        = details self
          ++ [src_file self ++ lit ":";
              TAB :: lit "Incorrect the copyright year, [YEAR-]2019 is needed:"
              ++ [LF; TAB] ++ n]).
Proof.
  intros Hlead Hd n.
  pose proof (single_year_template self lead d tail Hlead Hd) as H.
  cbn zeta in H. fold n in H. rewrite H.
  destruct (Z.eqb_spec (decimal d) 2019) as [E|E].
  - exists self. split; [reflexivity|]. split; [reflexivity|congruence].
  - eexists. split; [reflexivity|]. split; [congruence|].
    intros _. reflexivity.
Qed.

Lemma advertised_single_year_witness :
  no_digit (lit " * ") = true /\ four_digits (lit "2017")
  /\ exists self',
       is_copyright_correct (init [] [] [])
         [lit " * " ++ lit "Copyright (c) " ++ lit "2017"
          ++ lit " Intel Corporation" ++ lit ". All Rights Reserved."]
       = Return (decimal (lit "2017") =? 2019, self')
       /\ (decimal (lit "2017") = 2019 -> self' = init [] [] [])
       /\ (decimal (lit "2017") <> 2019 ->
           details self'
           = details (init [] [] [])
             ++ [src_file (init [] [] []) ++ lit ":";
                 TAB
                 :: lit "Incorrect the copyright year, [YEAR-]2019 is needed:"
                 ++ [LF; TAB]
                 ++ (lit " * " ++ lit "Copyright (c) " ++ lit "2017"
                     ++ lit " Intel Corporation"
                     ++ lit ". All Rights Reserved.")]).
Proof.
  assert (Hd : four_digits (lit "2017")) by (split; reflexivity).
  split; [reflexivity|]. split; [exact Hd|].
  exact (advertised_single_year (init [] [] []) (lit " * ") (lit "2017")
           (lit ". All Rights Reserved.") eq_refl Hd).
Defined.

(** X14: a line in the advertised range format, "Copyright (c) A-B
    Intel Corporation", passes exactly when B is 2019 and A is smaller
    than B, and then records nothing; otherwise it fails and records
    the file name and the incorrect-range message followed by the
    line. *)
Theorem advertised_range (self : CopyrightChecker) (lead a b tail : str) :
  no_digit lead = true ->
  four_digits a -> four_digits b ->
  let n := lead ++ lit "Copyright (c) " ++ (a ++ "-"%char :: b)
           ++ lit " Intel Corporation" ++ tail in
  let ok := (decimal b =? 2019) && (decimal a <? decimal b) in
  exists self',
    is_copyright_correct self [n] = Return (ok, self')
    /\ (ok = true -> self' = self)
    /\ (ok = false ->
        details self'
        = details self
          ++ [src_file self ++ lit ":";
              TAB :: lit "Incorrect the copyright range [YEAR-]2019 is needed"
              ++ [LF; TAB] ++ n]).
Proof.
  intros Hlead Ha Hb n ok.
  pose proof (range_template self lead a b tail Hlead Ha Hb) as H.
  cbn zeta in H. fold n in H. fold ok in H. rewrite H.
  destruct ok.
  - exists self. split; [reflexivity|]. split; [reflexivity|discriminate].
  - eexists. split; [reflexivity|]. split; [discriminate|].
    intros _. reflexivity.
Qed.

Lemma advertised_range_witness :
  no_digit (lit "// ") = true
  /\ four_digits (lit "2019") /\ four_digits (lit "2019")
  /\ exists self',
       is_copyright_correct (init [] [] [])
         [lit "// " ++ lit "Copyright (c) "
          ++ (lit "2019" ++ "-"%char :: lit "2019")
          ++ lit " Intel Corporation" ++ []]
       = Return ((decimal (lit "2019") =? 2019)
                 && (decimal (lit "2019") <? decimal (lit "2019")), self')
       /\ ((decimal (lit "2019") =? 2019)
           && (decimal (lit "2019") <? decimal (lit "2019")) = true ->
           self' = init [] [] [])
       /\ ((decimal (lit "2019") =? 2019)
           && (decimal (lit "2019") <? decimal (lit "2019")) = false ->
           details self'
           = details (init [] [] [])
             ++ [src_file (init [] [] []) ++ lit ":";
                 TAB
                 :: lit "Incorrect the copyright range [YEAR-]2019 is needed"
                 ++ [LF; TAB]
                 ++ (lit "// " ++ lit "Copyright (c) "
                     ++ (lit "2019" ++ "-"%char :: lit "2019")
                     ++ lit " Intel Corporation" ++ [])]).
Proof.
  assert (Hb : four_digits (lit "2019")) by (split; reflexivity).
  split; [reflexivity|]. split; [exact Hb|]. split; [exact Hb|].
  exact (advertised_range (init [] [] []) (lit "// ") (lit "2019")
           (lit "2019") [] eq_refl Hb Hb).
Defined.

(** C2 (amended): the block
    ["/* Copyright 2019-2018 Intel Corporation */"] passes, because
    without "(c)" the line is not an organizational notice and counts
    as a third-party copyright. With "(c)", a line
    "/* Copyright (c) A-B Intel Corporation */" passes exactly when B
    is 2019 and A is smaller than B, and otherwise fails and records
    the file name and the incorrect-range message followed by the
    line; so "/* Copyright (c) 2019-2018 Intel Corporation */" fails
    with that detail, its range end 2018 not being greater than its
    start 2019, as does "/* Copyright (c) 2019-2019 Intel Corporation
    */", whose end is the policy year. *)
Theorem reversed_range_scenario (self : CopyrightChecker) :
  let plain := lit "/* Copyright 2019-2018 Intel Corporation */" in
  let with_c := lit "/* Copyright (c) 2019-2018 Intel Corporation */" in
  let same_year := lit "/* Copyright (c) 2019-2019 Intel Corporation */" in
  is_intel plain = false
  /\ is_copyright_correct self [plain] = Return (true, self)
  /\ (forall a b : str,
        four_digits a -> four_digits b ->
        let n := lit "/* " ++ lit "Copyright (c) " ++ (a ++ "-"%char :: b)
                 ++ lit " Intel Corporation" ++ lit " */" in
        let ok := (decimal b =? 2019) && (decimal a <? decimal b) in
        exists self',
          is_copyright_correct self [n] = Return (ok, self')
          /\ (ok = true -> self' = self)
          /\ (ok = false ->
              details self'
              = details self
                ++ [src_file self ++ lit ":";
                    TAB
                    :: lit "Incorrect the copyright range [YEAR-]2019 is needed"
                    ++ [LF; TAB] ++ n]))
  /\ get_copyright_year_or_range with_c = Return (Some (Range [2019; 2018]))
  /\ (2018 <=? 2019) = true
  /\ (exists self',
        is_copyright_correct self [with_c] = Return (false, self')
        /\ details self'
           = details self
             ++ [src_file self ++ lit ":";
                 TAB :: lit "Incorrect the copyright range [YEAR-]2019 is needed"
                 ++ [LF; TAB] ++ with_c])
  /\ (exists self',
        is_copyright_correct self [same_year] = Return (false, self')
        /\ details self'
           = details self
             ++ [src_file self ++ lit ":";
                 TAB :: lit "Incorrect the copyright range [YEAR-]2019 is needed"
                 ++ [LF; TAB] ++ same_year]).
Proof.
  intros plain with_c same_year.
  split; [vm_compute; reflexivity|]. split; [vm_compute; reflexivity|].
  split.
  { intros a b Ha Hb n ok.
    pose proof (range_template self (lit "/* ") a b (lit " */") eq_refl
                  Ha Hb) as H.
    cbn zeta in H. fold n in H. fold ok in H. rewrite H.
    destruct ok.
    - exists self. split; [reflexivity|]. split; [reflexivity|discriminate].
    - eexists. split; [reflexivity|]. split; [discriminate|].
      intros _. reflexivity. }
  split; [vm_compute; reflexivity|]. split; [reflexivity|]. split.
  - exists (append_details self (msg_range with_c)).
    split; vm_compute; reflexivity.
  - exists (append_details self (msg_range same_year)).
    split; vm_compute; reflexivity.
Qed.

Lemma reversed_range_scenario_witness :
  four_digits (lit "2019")
  /\ exists self',
       is_copyright_correct (init [] [] [])
         [lit "/* " ++ lit "Copyright (c) "
          ++ (lit "2019" ++ "-"%char :: lit "2019")
          ++ lit " Intel Corporation" ++ lit " */"]
       = Return (false, self')
       /\ details self'
          = details (init [] [] [])
            ++ [src_file (init [] [] []) ++ lit ":";
                TAB :: lit "Incorrect the copyright range [YEAR-]2019 is needed"
                ++ [LF; TAB]
                ++ lit "/* Copyright (c) 2019-2019 Intel Corporation */"].
Proof.
  assert (H19 : four_digits (lit "2019")) by (split; reflexivity).
  split; [exact H19|].
  destruct (proj1 (proj2 (proj2 (reversed_range_scenario (init [] [] []))))
              (lit "2019") (lit "2019") H19 H19) as (self' & Hr & _ & Hd).
  exists self'. split; [exact Hr|]. apply Hd. reflexivity.
Defined.

(** ** The run over the changed files *)

Import CheckCopyrightRun.

(** A file that is read gives the leading comments of the lines it
    yields. *)
Lemma comments_from_file (file : file_desr) (comments : list str) :
  get_leading_comments_from file = inr comments ->
  comments = get_leading_comments (lines file).
Proof.
  unfold get_leading_comments_from, get_leading_comments.
  destruct (loop initial (lines file)) as [st|st]; cbn [final].
  - destruct (raises_after file); [discriminate|]. now intros [= <-].
  - now intros [= <-].
Qed.

(** Opening and reading raise nothing but their own errors. *)
Lemma file_comments_failure (w : world) (repo file : str) (e : failure) :
  file_comments w repo file = inl e -> e = OSError \/ e = ReadError.
Proof.
  unfold file_comments, get_leading_comments_from.
  destruct (open_file w repo file) as [f|]; [|intros [= <-]; now left].
  destruct (loop initial (lines f)); [|discriminate].
  destruct (raises_after f); [|discriminate]. intros [= <-]. now right.
Qed.

Lemma file_passes_verdict (w : world) (repo file : str)
  (comments : list str) :
  file_comments w repo file = inr comments ->
  file_passes w repo file = verdict comments
  /\ file_details w repo file
     = if verdict comments then []
       else [file ++ lit ":"; complaint comments].
Proof.
  intros Hread. unfold file_passes, file_details.
  rewrite Hread, !check_as_function.
  destruct (verdict comments); split; reflexivity.
Qed.

Lemma last_cons {X : Type} (l : list X) : forall a d,
  last (a :: l) d = last l a.
Proof.
  induction l as [|b l IH]; intros a d; [reflexivity|].
  change (last (a :: b :: l) d) with (last (b :: l) d).
  rewrite !IH. reflexivity.
Qed.

Lemma readable_comments (w : world) (repo file : str) :
  readable w repo file = true ->
  exists comments, file_comments w repo file = inr comments.
Proof.
  unfold readable. destruct (file_comments w repo file) as [e|comments];
    [discriminate|eauto].
Qed.

Lemma check_files_app (w : world) (files1 files2 : list str) :
  forall (self : CopyrightChecker) (has_problems : bool),
    check_files w self (files1 ++ files2) has_problems
    = match check_files w self files1 has_problems with
      | inl stopped => inl stopped
      | inr (has_problems', self') =>
          check_files w self' files2 has_problems'
      end.
Proof.
  induction files1 as [|f files1 IH]; intros self hp; [reflexivity|].
  cbn [app check_files].
  destruct (open_file w _ _) as [fd|]; [|reflexivity].
  destruct (get_leading_comments_from fd) as [e|comments]; [reflexivity|].
  destruct (is_copyright_correct _ comments) as [[correct self']|e];
    [apply IH|reflexivity].
Qed.

(** The loop over the files when all of them are opened and read. *)
Lemma check_files_readable (w : world) (files : list str) :
  forall (self : CopyrightChecker) (has_problems : bool),
    Forall (fun f => readable w (repo_path self) f = true) files ->
    check_files w self files has_problems
    = inr (has_problems
           || negb (forallb (file_passes w (repo_path self)) files),
           after_files w self files).
Proof.
  unfold after_files.
  induction files as [|f files IH]; intros self hp Hread.
  - cbn [check_files forallb flat_map last negb].
    rewrite orb_false_r, app_nil_r. now destruct self.
  - inversion Hread as [|? ? Hf Hrest]; subst.
    destruct (readable_comments _ _ _ Hf) as [comments Hc].
    destruct (file_passes_verdict w _ _ _ Hc) as [Hp Hd].
    cbn [check_files set_src_file repo_path src_file].
    unfold file_comments in Hc.
    destruct (open_file w (repo_path self) f) as [fd|]; [|discriminate].
    rewrite Hc, check_as_function.
    cbn [forallb flat_map]. rewrite Hp, Hd, last_cons.
    destruct (verdict comments).
    + rewrite IH by exact Hrest.
      cbn [repo_path commit_id report_path details src_file negb andb app].
      now rewrite orb_false_r.
    + rewrite IH by exact Hrest.
      cbn [repo_path commit_id report_path details src_file negb andb
           append_details].
      rewrite orb_true_r, <- app_assoc. reflexivity.
Qed.

(** The loop stops at the first file that is not opened or not read,
    with the checker set on that file. *)
Lemma check_files_stops (w : world) (self : CopyrightChecker)
  (before : list str) (file : str) (after : list str) (e : failure)
  (has_problems : bool) :
  Forall (fun f => readable w (repo_path self) f = true) before ->
  file_comments w (repo_path self) file = inl e ->
  check_files w self (before ++ file :: after) has_problems
  = inl (e, set_src_file (after_files w self before) file).
Proof.
  intros Hread Hfail.
  rewrite check_files_app, (check_files_readable w before self _ Hread).
  cbn [check_files set_src_file repo_path src_file after_files].
  unfold file_comments in Hfail.
  destruct (open_file w (repo_path self) file) as [fd|].
  - rewrite Hfail. reflexivity.
  - now injection Hfail as <-.
Qed.

(** Either every file is read or there is a first one that is not. *)
Lemma first_unreadable (w : world) (repo : str) (files : list str) :
  Forall (fun f => readable w repo f = true) files
  \/ exists before file after e,
       files = before ++ file :: after /\
       Forall (fun f => readable w repo f = true) before /\
       file_comments w repo file = inl e.
Proof.
  induction files as [|f files IH]; [left; constructor|].
  destruct (file_comments w repo f) as [e|comments] eqn:E.
  - right. exists [], f, files, e. repeat split; [constructor|exact E].
  - assert (Hf : readable w repo f = true) by (unfold readable; now rewrite E).
    destruct IH as [IH|(before & file & after & e & -> & Hb & He)].
    + left. now constructor.
    + right. exists (f :: before), file, after, e.
      repeat split; [now constructor|exact He].
Qed.

Lemma fold_add_detail (files : list str) : forall c : CopyrightChecker,
  fold_left (fun self file_name => add_detail self (TAB :: file_name))
    files c
  = {| repo_path := repo_path c; commit_id := commit_id c;
       report_path := report_path c;
       details := details c ++ map (cons TAB) files;
       src_file := src_file c |}.
Proof.
  induction files as [|f files IH]; intros c; cbn [fold_left map].
  - rewrite app_nil_r. now destruct c.
  - rewrite IH. cbn [add_detail repo_path commit_id report_path details
                     src_file].
    now rewrite <- app_assoc.
Qed.

Lemma passing_files_add_nothing (w : world) (repo : str) (files : list str) :
  forallb (file_passes w repo) files = true ->
  flat_map (file_details w repo) files = [].
Proof.
  induction files as [|f files IH]; cbn [forallb flat_map]; [reflexivity|].
  intros H. apply andb_true_iff in H as [Hf H]. rewrite (IH H), app_nil_r.
  unfold file_passes in Hf. unfold file_details.
  destruct (file_comments w repo f) as [e|comments]; [reflexivity|].
  rewrite check_as_function in Hf |- *.
  now rewrite Hf.
Qed.

(** The whole run when git answers and all the changed files are
    opened and read. *)
Lemma run_readable (w : world) (self : CopyrightChecker)
  (files : list str) :
  get_changed_files w self = inr files ->
  Forall (fun f => readable w (repo_path self) f = true) files ->
  let all_pass := forallb (file_passes w (repo_path self)) files in
  let final :=
    {| repo_path := repo_path self; commit_id := commit_id self;
       report_path := report_path self;
       details :=
         details self
         ++ (if all_pass then
               lit "Checked following files:"
               :: match files with
                  | [] =>
                      [TAB :: lit "No files to check...";
                       TAB :: lit "Check works only for files with extensions:"
                       ++ repr_tuple FILES_TO_CHECK]
                  | _ :: _ => []
                  end
               ++ map (cons TAB) files
             else
               flat_map (file_details w (repo_path self)) files
               ++ [LF :: lit "Correct format: Copyright (c) [YEAR-]"
                   ++ str_of_int YEAR
                   ++ lit " Intel Corporation. All Rights Reserved."]);
       src_file := last files (src_file self) |} in
  check_copyright w self
  = print_and_report w final all_pass
      (join [LF]
         ([repeat "-"%char 50;
           if all_pass then lit "Copyright check PASSED!"
           else lit "Copyright check FAILED!";
           []] ++ details final))
      (if all_pass then 0 else 1).
Proof.
  intros Hfiles Hread all_pass final. unfold check_copyright.
  rewrite Hfiles, (check_files_readable w files self false Hread).
  fold all_pass. cbn [orb]. subst final. unfold after_files.
  destruct all_pass eqn:Hall; cbn [negb].
  - rewrite fold_add_detail.
    rewrite (passing_files_add_nothing _ _ _ Hall), app_nil_r.
    destruct files as [|f files']; unfold add_detail;
      cbn [negb repo_path commit_id report_path details src_file app];
      rewrite <- ?app_assoc; reflexivity.
  - unfold add_detail.
    cbn [repo_path commit_id report_path details src_file app].
    rewrite <- ?app_assoc. reflexivity.
Qed.

(** X16: when git answers, every changed file is opened and read
    through its leading comments without error, and printing
    succeeds, the run prints its output, hands the same output to the
    report with the status "all files pass", and exits with 2 if the
    report cannot be written, else with 0 if all files pass and with 1
    if one fails. *)
Theorem run_exit_code (w : world) (self : CopyrightChecker)
  (files : list str) :
  get_changed_files w self = inr files ->
  Forall (fun f => readable w (repo_path self) f = true) files ->
  (forall text, print_ok w text = true) ->
  let all_pass := forallb (file_passes w (repo_path self)) files in
  let run := check_copyright w self in
  exists output,
    hd_error (printed run) = Some output
    /\ report run
       = Some (lit "check_copyright", all_pass, output, report_path self)
    /\ status run
       = Exit (if update_json w (lit "check_copyright") all_pass output
                    (report_path self)
               then if all_pass then 0 else 1
               else 2).
Proof.
  intros Hfiles Hread Hprint all_pass run. unfold run.
  rewrite (run_readable w self files Hfiles Hread). fold all_pass.
  match goal with
  | |- context [print_and_report w ?c all_pass ?out ?code] =>
      exists out; unfold print_and_report;
      change (report_path c) with (report_path self);
      rewrite !Hprint;
      destruct (update_json w (lit "check_copyright") all_pass out
                  (report_path self)); cbn [negb printed report status];
      repeat split; reflexivity
  end.
Qed.

Lemma run_exit_code_witness :
  get_changed_files Samples.sample_world Samples.sample_checker
  = inr [lit "src/a.cpp"; lit "src/b.h"]
  /\ Forall (fun f => readable Samples.sample_world
                        (repo_path Samples.sample_checker) f = true)
       [lit "src/a.cpp"; lit "src/b.h"]
  /\ (forall text, print_ok Samples.sample_world text = true)
  /\ exists output,
       hd_error (printed (check_copyright Samples.sample_world
                            Samples.sample_checker)) = Some output
       /\ report (check_copyright Samples.sample_world Samples.sample_checker)
          = Some (lit "check_copyright",
                  forallb (file_passes Samples.sample_world
                             (repo_path Samples.sample_checker))
                    [lit "src/a.cpp"; lit "src/b.h"],
                  output, report_path Samples.sample_checker)
       /\ status (check_copyright Samples.sample_world Samples.sample_checker)
          = Exit (if update_json Samples.sample_world (lit "check_copyright")
                       (forallb (file_passes Samples.sample_world
                                   (repo_path Samples.sample_checker))
                          [lit "src/a.cpp"; lit "src/b.h"])
                       output (report_path Samples.sample_checker)
                  then if forallb (file_passes Samples.sample_world
                                     (repo_path Samples.sample_checker))
                            [lit "src/a.cpp"; lit "src/b.h"]
                       then 0 else 1
                  else 2).
Proof.
  assert (H1 : get_changed_files Samples.sample_world Samples.sample_checker
               = inr [lit "src/a.cpp"; lit "src/b.h"])
    by (vm_compute; reflexivity).
  assert (H2 : Forall (fun f => readable Samples.sample_world
                                  (repo_path Samples.sample_checker) f
                                = true)
                 [lit "src/a.cpp"; lit "src/b.h"])
    by (repeat constructor).
  assert (H3 : forall text, print_ok Samples.sample_world text = true)
    by reflexivity.
  split; [exact H1|]. split; [exact H2|]. split; [exact H3|].
  exact (run_exit_code Samples.sample_world Samples.sample_checker
           [lit "src/a.cpp"; lit "src/b.h"] H1 H2 H3).
Defined.

(** X17: a run that cannot get its files ends without exit code,
    nothing printed and no report written. If git raises, the run ends
    with that error. If a changed file cannot be opened, or raises
    while its leading comments are read, the run ends with that error
    at the first such file: the checker is then set on this file and
    holds the details of the files before it. The check of a file
    itself never ends a run. *)
Theorem run_endings (w : world) (self : CopyrightChecker) :
  (get_changed_files w self = inl GitError ->
   status (check_copyright w self) = Uncaught GitError
   /\ printed (check_copyright w self) = []
   /\ report (check_copyright w self) = None)
  /\ (forall (before : list str) (file : str) (after : list str)
        (e : failure),
        get_changed_files w self = inr (before ++ file :: after) ->
        Forall (fun f => readable w (repo_path self) f = true) before ->
        file_comments w (repo_path self) file = inl e ->
        (e = OSError \/ e = ReadError)
        /\ status (check_copyright w self) = Uncaught e
        /\ printed (check_copyright w self) = []
        /\ report (check_copyright w self) = None
        /\ src_file (checker (check_copyright w self)) = file
        /\ details (checker (check_copyright w self))
           = details self
             ++ flat_map (file_details w (repo_path self)) before)
  /\ (forall e : error,
        status (check_copyright w self) <> Uncaught (CheckError e)).
Proof.
  split; [|split].
  - intros Hgit. unfold check_copyright. rewrite Hgit.
    repeat split; reflexivity.
  - intros before file after e Hfiles Hread Hfail.
    split; [exact (file_comments_failure w _ file e Hfail)|].
    unfold check_copyright.
    rewrite Hfiles, (check_files_stops w self before file after e false
                       Hread Hfail).
    repeat split; reflexivity.
  - intros e. unfold check_copyright.
    destruct (get_changed_files w self) as [g|files] eqn:Hfiles.
    + unfold get_changed_files in Hfiles.
      destruct (git_diff w _ _); [discriminate|].
      injection Hfiles as <-. cbn [status]. discriminate.
    + destruct (first_unreadable w (repo_path self) files)
        as [Hread|(before & file & after & e' & -> & Hread & Hfail)].
      * pose proof (run_readable w self files Hfiles Hread) as Hrun.
        unfold check_copyright in Hrun. rewrite Hfiles in Hrun.
        cbn zeta in Hrun. rewrite Hrun.
        unfold print_and_report.
        repeat match goal with
               | |- context [if ?b then _ else _] => destruct b
               end; cbn [status]; discriminate.
      * rewrite (check_files_stops w self before file after e' false
                   Hread Hfail).
        cbn [status].
        destruct (file_comments_failure w _ _ _ Hfail) as [-> | ->];
          discriminate.
Qed.

Lemma run_endings_witness :
  get_changed_files Samples.sample_world Samples.sample_checker_binary
  = inr ([lit "src/a.cpp"] ++ lit "src/b.h" :: [])
  /\ Forall (fun f => readable Samples.sample_world
                        (repo_path Samples.sample_checker_binary) f = true)
       [lit "src/a.cpp"]
  /\ file_comments Samples.sample_world
       (repo_path Samples.sample_checker_binary) (lit "src/b.h")
     = inl ReadError
  /\ status (check_copyright Samples.sample_world
               Samples.sample_checker_binary) = Uncaught ReadError
  /\ printed (check_copyright Samples.sample_world
                Samples.sample_checker_binary) = []
  /\ src_file (checker (check_copyright Samples.sample_world
                          Samples.sample_checker_binary)) = lit "src/b.h".
Proof.
  assert (H1 : get_changed_files Samples.sample_world
                 Samples.sample_checker_binary
               = inr ([lit "src/a.cpp"] ++ lit "src/b.h" :: []))
    by (vm_compute; reflexivity).
  assert (H2 : Forall (fun f => readable Samples.sample_world
                                  (repo_path Samples.sample_checker_binary) f
                                = true)
                 [lit "src/a.cpp"])
    by (repeat constructor).
  assert (H3 : file_comments Samples.sample_world
                 (repo_path Samples.sample_checker_binary) (lit "src/b.h")
               = inl ReadError)
    by (vm_compute; reflexivity).
  split; [exact H1|]. split; [exact H2|]. split; [exact H3|].
  destruct (proj1 (proj2 (run_endings Samples.sample_world
                            Samples.sample_checker_binary))
              [lit "src/a.cpp"] (lit "src/b.h") [] ReadError H1 H2 H3)
    as (_ & Hs & Hp & _ & Hf & _).
  split; [exact Hs|]. split; [exact Hp|exact Hf].
Defined.

(** X18: what a run reports when git answers, every changed file is
    opened and read through its leading comments, and printing
    succeeds. If all files pass, the details gain the line "Checked
    following files:", a two-line note when there is no file at all,
    and one line per file. Otherwise they gain, for each failing file
    in the order of the diff, its path with a colon and its message,
    passing files adding nothing, and then the correct-format footer.
    The output printed is the rule, the headline, an empty line and
    these details, joined by newlines. *)
Theorem run_report_content (w : world) (self : CopyrightChecker)
  (files : list str) :
  get_changed_files w self = inr files ->
  Forall (fun f => readable w (repo_path self) f = true) files ->
  (forall text, print_ok w text = true) ->
  let all_pass := forallb (file_passes w (repo_path self)) files in
  let run := check_copyright w self in
  details (checker run)
  = details self
    ++ (if all_pass then
          lit "Checked following files:"
          :: match files with
             | [] =>
                 [TAB :: lit "No files to check...";
                  TAB :: lit "Check works only for files with extensions:"
                  ++ lit "('.h', '.cpp', '.c')"]
             | _ :: _ => []
             end
          ++ map (cons TAB) files
        else
          flat_map (file_details w (repo_path self)) files
          ++ [LF :: lit "Correct format: Copyright (c) [YEAR-]2019"
              ++ lit " Intel Corporation. All Rights Reserved."])
  /\ hd_error (printed run)
     = Some (join [LF]
               ([lit "--------------------------------------------------";
                 if all_pass then lit "Copyright check PASSED!"
                 else lit "Copyright check FAILED!";
                 []] ++ details (checker run))).
Proof.
  intros Hfiles Hread Hprint all_pass run. unfold run.
  rewrite (run_readable w self files Hfiles Hread). fold all_pass.
  unfold print_and_report. rewrite !Hprint.
  destruct (update_json w _ _ _ _); cbn [negb printed checker details];
    split; reflexivity.
Qed.

Lemma run_report_content_witness :
  get_changed_files Samples.sample_world Samples.sample_checker
  = inr [lit "src/a.cpp"; lit "src/b.h"]
  /\ Forall (fun f => readable Samples.sample_world
                        (repo_path Samples.sample_checker) f = true)
       [lit "src/a.cpp"; lit "src/b.h"]
  /\ (forall text, print_ok Samples.sample_world text = true)
  /\ hd_error (printed (check_copyright Samples.sample_world
                          Samples.sample_checker))
     = Some (join [LF]
               ([lit "--------------------------------------------------";
                 if forallb (file_passes Samples.sample_world
                               (repo_path Samples.sample_checker))
                      [lit "src/a.cpp"; lit "src/b.h"]
                 then lit "Copyright check PASSED!"
                 else lit "Copyright check FAILED!";
                 []]
                ++ details (checker (check_copyright Samples.sample_world
                                       Samples.sample_checker)))).
Proof.
  assert (H1 : get_changed_files Samples.sample_world Samples.sample_checker
               = inr [lit "src/a.cpp"; lit "src/b.h"])
    by (vm_compute; reflexivity).
  assert (H2 : Forall (fun f => readable Samples.sample_world
                                  (repo_path Samples.sample_checker) f
                                = true)
                 [lit "src/a.cpp"; lit "src/b.h"])
    by (repeat constructor).
  assert (H3 : forall text, print_ok Samples.sample_world text = true)
    by reflexivity.
  split; [exact H1|]. split; [exact H2|]. split; [exact H3|].
  exact (proj2 (run_report_content Samples.sample_world
                  Samples.sample_checker
                  [lit "src/a.cpp"; lit "src/b.h"] H1 H2 H3)).
Defined.

Lemma splitlines_aux_line (n rest : str) : forall cur,
  forallb (fun c => negb (is_linebreak c)) n = true ->
  splitlines_aux cur (n ++ rest) = splitlines_aux (rev n ++ cur) rest.
Proof.
  induction n as [|c n IH]; intros cur H; [reflexivity|].
  cbn [forallb] in H. apply andb_true_iff in H as [Hc H].
  apply negb_true_iff in Hc.
  cbn [app splitlines_aux rev]. rewrite Hc, IH by exact H.
  now rewrite <- app_assoc.
Qed.

(** Names printed one per line are what [splitlines] gives back. *)
Lemma splitlines_join (names : list str) :
  Forall (fun n => n <> [] /\
                   forallb (fun c => negb (is_linebreak c)) n = true)
    names ->
  splitlines (join [LF] names) = names.
Proof.
  unfold splitlines. induction names as [|n names IH]; intros H;
    [reflexivity|].
  inversion H as [|? ? [Hne Hn] Hrest]; subst.
  destruct names as [|n2 names].
  - cbn [join]. rewrite <- (app_nil_r n) at 1.
    rewrite splitlines_aux_line, app_nil_r by exact Hn.
    cbn [splitlines_aux].
    destruct (rev n) as [|c t] eqn:E.
    + apply (f_equal (@rev ascii)) in E. rewrite rev_involutive in E.
      now elim Hne.
    + now rewrite <- E, rev_involutive.
  - change (join [LF] (n :: n2 :: names))
      with (n ++ [LF] ++ join [LF] (n2 :: names)).
    rewrite splitlines_aux_line, app_nil_r by exact Hn.
    cbn [app splitlines_aux].
    change (is_linebreak LF) with true. change (Ascii.eqb LF CR) with false.
    cbn iota. now rewrite rev_involutive, (IH Hrest).
Qed.

(** X19: when [git diff] prints the changed paths one per line, the
    files checked are exactly the paths ending in ".h", ".cpp" or ".c"
    (case-sensitive), in the order of the diff, each written as
    [pathlib.Path] writes it; every other path is left out. *)
Theorem changed_files_of_listing (w : world) (self : CopyrightChecker)
  (names : list str) :
  Forall (fun n => n <> [] /\
                   forallb (fun c => negb (is_linebreak c)) n = true)
    names ->
  git_diff w (repo_path self) (commit_id self ++ lit "~1")
  = Some (join [LF] names) ->
  get_changed_files w self
  = inr (map (Path w)
           (filter (fun n => endswith n (lit ".h") || endswith n (lit ".cpp")
                             || endswith n (lit ".c"))
              names)).
Proof.
  intros Hnames Hdiff. unfold get_changed_files.
  rewrite Hdiff, (splitlines_join _ Hnames). do 2 f_equal.
  apply filter_ext. intros n. unfold endswith_any, FILES_TO_CHECK.
  cbn [existsb]. now rewrite orb_false_r, orb_assoc.
Qed.

Lemma changed_files_of_listing_witness :
  Forall (fun n => n <> [] /\
                   forallb (fun c => negb (is_linebreak c)) n = true)
    [lit "src/a.cpp"; lit "README.md"; lit "src/b.h"]
  /\ git_diff Samples.sample_world (repo_path Samples.sample_checker)
       (commit_id Samples.sample_checker ++ lit "~1")
     = Some (join [LF] [lit "src/a.cpp"; lit "README.md"; lit "src/b.h"])
  /\ get_changed_files Samples.sample_world Samples.sample_checker
     = inr (map (Path Samples.sample_world)
              (filter (fun n => endswith n (lit ".h")
                                || endswith n (lit ".cpp")
                                || endswith n (lit ".c"))
                 [lit "src/a.cpp"; lit "README.md"; lit "src/b.h"])).
Proof.
  assert (H : Forall (fun n => n <> [] /\
                               forallb (fun c => negb (is_linebreak c)) n
                               = true)
                [lit "src/a.cpp"; lit "README.md"; lit "src/b.h"]).
  { repeat constructor; discriminate. }
  split; [exact H|]. split; [reflexivity|].
  exact (changed_files_of_listing Samples.sample_world
           Samples.sample_checker
           [lit "src/a.cpp"; lit "README.md"; lit "src/b.h"] H eq_refl).
Defined.

